(** * picoCTF problem module: a shallow embedding of [api/problem.py]

    The module keeps two MongoDB collections, [problems] and [submissions],
    and reads and writes them through pymongo.  Documents are Python dicts,
    so they are modelled as finite maps from field names to BSON values; a
    collection is the list of its documents in natural (insertion) order.
    The server-assigned [_id] of a document is left out: every read of the
    module projects it away with [{"_id": 0}]. *)

From Stdlib Require Import ZArith String List.
From stdpp Require Import base option list gmap fin_maps strings pretty sorting.

Local Open Scope string_scope.
Local Open Scope list_scope.
Local Open Scope Z_scope.

(** ** Values and documents *)

(** The Python/BSON values the module stores in a document.  A [weightmap]
    is a dict from strings to integer weights; [tags] and
    [related_problems] are lists of strings; [timestamp] is a date. *)
Inductive value : Type :=
| VNone
| VBool (b : bool)
| VInt (z : Z)
| VStr (s : string)
| VDate (t : Z)
| VList (l : list string)
| VDict (m : gmap string Z).

Global Instance value_eq_dec : EqDecision value.
Proof. solve_decision. Defined.

Global Instance value_inhabited : Inhabited value := populate VNone.

Abbreviation doc := (gmap string value).

(** Python's [==] on these values: [True == 1] and [False == 0] hold,
    everything else is structural. *)
Definition py_eq (a b : value) : bool :=
  match a, b with
  | VBool x, VInt z => bool_decide (z = Z.b2z x)
  | VInt z, VBool x => bool_decide (z = Z.b2z x)
  | _, _ => bool_decide (a = b)
  end.

(** [x in l] for a Python list [l]. *)
Definition py_in (x : value) (l : list value) : bool :=
  existsb (py_eq x) l.

(** [(k, p) in l] for a list of pairs: tuples compare componentwise. *)
Definition py_in_pairs (x : value * value) (l : list (value * value)) : bool :=
  existsb (λ y, py_eq x.1 y.1 && py_eq x.2 y.2) l.

(** ** Exceptions *)

(** The exception classes the module raises ([api.common]), the ones Python
    raises on a malformed document, and pymongo's [OperationFailure].
    [ValidationError] is what [api.common.validate] raises when a schema
    rejects its input. *)
Inductive exn : Type :=
| WebException (msg : string)
| InternalException (msg : string)
| SevereInternalException (msg : string)
| ValidationError (msg : string)
| KeyError (field : string)
| TypeError
| AttributeError
| OperationFailure (msg : string).

Global Instance exn_eq_dec : EqDecision exn.
Proof. solve_decision. Defined.

Inductive result (A : Type) : Type :=
| Ok (a : A)
| Raise (e : exn).
Arguments Ok {A} a.
Arguments Raise {A} e.

Global Instance result_ret : MRet result := λ A a, Ok a.
Global Instance result_bind : MBind result := λ A B f m,
  match m with Ok a => f a | Raise e => Raise e end.

(** [d[k]]: a missing key raises [KeyError]. *)
Definition doc_get (d : doc) (k : string) : result value :=
  match d !! k with
  | Some v => Ok v
  | None => Raise (KeyError k)
  end.

(** [safe_fail(f, ...)] of [api.common], which is not part of this module.
    As its callers use it: the value of the call, or [None] when the call
    raises. *)
Definition safe_fail {A} (r : result A) : option A :=
  match r with Ok a => Some a | Raise _ => None end.

(** ** The document store *)

Module Mongo.

(** A filter [{k1: v1, ...}] matches the documents that hold exactly these
    values in these fields.  The module only filters on scalar fields and
    never on [None]. *)
Definition matches (spec d : doc) : bool :=
  bool_decide (map_Forall (λ k v, d !! k = Some v) spec).

(** [collection.find(spec)], in natural order. *)
Definition find (spec : doc) (c : list doc) : list doc :=
  List.filter (matches spec) c.

(** [collection.find_one(spec)]: the first match, if any. *)
Definition find_one (spec : doc) (c : list doc) : option doc :=
  head (find spec c).

(** [collection.insert(d)]. *)
Definition insert (d : doc) (c : list doc) : list doc := c ++ [d].

(** [collection.remove(spec)]: every match is deleted. *)
Definition remove (spec : doc) (c : list doc) : list doc :=
  List.filter (λ d, negb (matches spec d)) c.

(** The first document matching [spec] becomes [document]. *)
Fixpoint replace_first (spec document : doc) (c : list doc) : list doc :=
  match c with
  | [] => []
  | d :: c' =>
      if matches spec d then document :: c'
      else d :: replace_first spec document c'
  end.

(** [collection.update(spec, document, multi=...)] for a [document] that
    holds no [$]-operator, which is how the module calls it.  Such a
    document is a replacement: with [multi=False] (pymongo's default) the
    first match is replaced as a whole, keeping only its [_id]; with
    [multi=True] the server refuses the write and pymongo raises. *)
Definition update (spec document : doc) (multi : bool) (c : list doc)
  : result (list doc) :=
  if multi then Raise (OperationFailure "multi update only works with $ operators")
  else Ok (replace_first spec document c).

(** Order of two sort keys: [None] and missing fields come first, then
    numbers in increasing order, then every other type; ties keep their
    natural order. *)
Definition key_rank (v : option value) : Z :=
  match v with
  | None | Some VNone => 0
  | Some (VInt _) => 1
  | Some (VStr _) => 2
  | Some (VDict _) => 3
  | Some (VList _) => 4
  | Some (VBool _) => 5
  | Some (VDate _) => 6
  end.

Definition key_leb (a b : option value) : bool :=
  match a, b with
  | Some (VInt x), Some (VInt y) => x <=? y
  | _, _ => key_rank a <=? key_rank b
  end.

(** [cursor.sort(field, ASCENDING)]. *)
Definition sort_ascending (field : string) (c : list doc) : list doc :=
  merge_sort (λ a b, Is_true (key_leb (a !! field) (b !! field))) c.

End Mongo.

(** ** Schemas *)

(** One entry of a voluptuous schema: the key, whether it is [Required],
    the message of its [check] and the test the value must pass. *)
Record rule : Type := Rule {
  r_key : string;
  r_required : bool;
  r_msg : string;
  r_check : value → bool
}.

Definition is_str (v : value) : bool :=
  match v with VStr _ => true | _ => false end.

Definition is_bool (v : value) : bool :=
  match v with VBool _ => true | _ => false end.

Definition is_list (v : value) : bool :=
  match v with VList _ => true | _ => false end.

Definition is_dict (v : value) : bool :=
  match v with VDict _ => true | _ => false end.

(** [[str, Length(max=n)]] *)
Definition is_str_max (n : nat) (v : value) : bool :=
  match v with
  | VStr s => bool_decide (String.length s ≤ n)%nat
  | _ => false
  end.

(** [[int, Range(min=n)]] *)
Definition is_int_min (n : Z) (v : value) : bool :=
  match v with
  | VInt z => bool_decide (n ≤ z)
  | _ => false
  end.

Definition submission_schema : list rule :=
  [ Rule "tid" true "This does not look like a valid tid." (is_str_max 100);
    Rule "pid" true "This does not look like a valid pid." (is_str_max 100);
    Rule "key" true "This does not look like a valid key." (is_str_max 100) ].

Definition problem_schema : list rule :=
  [ Rule "name" true "The problem's display name must be a string." is_str;
    Rule "score" true "Score must be a positive integer." (is_int_min 0);
    Rule "category" true "Category must be a string." is_str;
    Rule "grader" true "The grader path must be a string." is_str;
    Rule "description" true "The problem description must be a string." is_str;
    Rule "threshold" true "Threshold must be a positive integer." (is_int_min 0);
    Rule "disabled" false "A problem's disabled state is either True or False." is_bool;
    Rule "autogen" false "A problem should either be autogenerated or not, True/False" is_bool;
    Rule "related_problems" false "Related problems should be a list of related problems." is_list;
    Rule "pid" false "You should not specify a pid for a problem." (λ _, false);
    Rule "weightmap" false "Weightmap should be a dict." is_dict;
    Rule "tags" false "Tags must be described as a list." is_list;
    Rule "hint" false "A hint must be a string." is_str;
    Rule "_id" false "Your problems should not already have _ids." (λ _, false) ].

Definition check_rule (data : doc) (r : rule) : result unit :=
  match data !! r_key r with
  | None =>
      if r_required r then Raise (ValidationError "required key not provided")
      else Ok ()
  | Some v =>
      if r_check r v then Ok () else Raise (ValidationError (r_msg r))
  end.

(** Modelled from the spec: [api.common.validate] and [api.common.check]
    are not part of this module.  A schema accepts a dict when every
    required key is there, every key it holds is a key of the schema, and
    every value has the type and range its check names; otherwise a
    validation error is raised. *)
Definition validate (schema : list rule) (data : doc) : result unit :=
  _ ← mapM (check_rule data) schema;
  if bool_decide (map_Forall (λ k _, k ∈ (r_key <$> schema)) data)
  then Ok ()
  else Raise (ValidationError "extra keys not allowed").

(** ** The state of the service *)

(** One call [grade(uid, key)] of the grader script at path [grader]. *)
Record grader_call : Type := GraderCall {
  gc_grader : string;
  gc_uid : value;
  gc_key : value
}.

Global Instance grader_call_eq_dec : EqDecision grader_call.
Proof. solve_decision. Defined.

(** The two collections, and the calls made to grader scripts so far
    (most recent last). *)
Record world : Type := World {
  problems : list doc;
  submissions : list doc;
  grader_calls : list grader_call
}.

Definition set_problems (c : list doc) (w : world) : world :=
  World c (submissions w) (grader_calls w).

Definition set_submissions (c : list doc) (w : world) : world :=
  World (problems w) c (grader_calls w).

Definition log_call (g : grader_call) (w : world) : world :=
  World (problems w) (submissions w) (grader_calls w ++ [g]).

(** Functions that write: they may raise, and what they changed before
    raising stays changed. *)
Definition M (A : Type) : Type := world → result A * world.

Global Instance M_ret : MRet M := λ A a w, (Ok a, w).
Global Instance M_bind : MBind M := λ A B f m w,
  match m w with
  | (Ok a, w') => f a w'
  | (Raise e, w') => (Raise e, w')
  end.

(** A read of the store. *)
Definition read {A} (f : world → result A) : M A := λ w, (f w, w).

Definition raise {A} (e : exn) : M A := λ w, (Raise e, w).

Definition modify (f : world → world) : M unit := λ w, (Ok (), f w).

(** What [grade_problem] and [submit_key] return. *)
Record grade_result : Type := GradeResult {
  correct : bool;
  points : value;
  message : string
}.

Global Instance result_fmap : FMap result := λ A B f m,
  match m with Ok a => Ok (f a) | Raise e => Raise e end.

(** A pure computation that may raise, run inside a writing function. *)
Definition lift {A} (r : result A) : M A := λ w, (r, w).

(** Python truthiness, as in [if x:]. *)
Definition py_truthy (v : value) : bool :=
  match v with
  | VNone => false
  | VBool b => b
  | VInt z => negb (z =? 0)
  | VStr s => negb (bool_decide (s = ""))
  | VDate _ => true
  | VList l => negb (bool_decide (l = []))
  | VDict m => negb (bool_decide (m = ∅))
  end.

(** [str(v)], as [format] inserts it; containers and dates are abbreviated. *)
Definition py_str (v : value) : string :=
  match v with
  | VNone => "None"
  | VBool true => "True"
  | VBool false => "False"
  | VInt z => pretty z
  | VStr s => s
  | VDate _ => "datetime"
  | VList _ => "[...]"
  | VDict _ => "{...}"
  end.

(** Lists and dicts cannot be keys of a Python dict. *)
Definition py_hashable (v : value) : bool :=
  match v with
  | VList _ | VDict _ => false
  | _ => true
  end.

(** [k in d] for a document. *)
Definition has_key (d : doc) (k : string) : bool :=
  match d !! k with Some _ => true | None => false end.

(** [match.update({k: v})] guarded by [if v is not None]. *)
Definition add_filter (k : string) (v : value) (spec : doc) : doc :=
  if decide (v = VNone) then spec else <[k := v]> spec.

(** [weightsum >= threshold] for a stored threshold. *)
Definition py_ge (weightsum : Z) (threshold : value) : result bool :=
  match threshold with
  | VInt t => Ok (t <=? weightsum)
  | VBool b => Ok (Z.b2z b <=? weightsum)
  | _ => Raise TypeError
  end.

(** ** The functions of [api/problem.py] *)

Section Api.

(** [api.common.hash], the digest of a name. *)
Variable hash : string → string.

(** The grader script found at a path below [grader_base_path]: its
    [grade(uid, key)], or nothing when there is no such file. *)
Variable load_grader : string → option (value → value → bool * string).

(** [api.user.get_user(uid=...)]. *)
Variable get_user : value → option doc.

(** [get_submissions(pid, uid, tid, category)] *)
Definition get_submissions (pid uid tid category : value) (w : world)
  : list doc :=
  let match_ :=
    if decide (uid = VNone) then add_filter "tid" tid ∅
    else <["uid" := uid]> ∅ in
  let match_ := add_filter "pid" pid match_ in
  let match_ := add_filter "category" category match_ in
  Mongo.find match_ (submissions w).

(** [get_all_problems(category, show_disabled)] *)
Definition get_all_problems (category : value) (show_disabled : bool)
    (w : world) : list doc :=
  let match_ := {["disabled" := VBool show_disabled]} in
  let match_ := add_filter "category" category match_ in
  Mongo.sort_ascending "score" (Mongo.find match_ (problems w)).

(** The filter [get_problem] builds from its arguments. *)
Definition problem_match (pid name : value) (show_disabled : bool)
  : result doc :=
  let match_ := {["disabled" := VBool show_disabled]} in
  if decide (pid = VNone) then
    if decide (name = VNone) then
      Raise (InternalException "Must supply pid or display name")
    else Ok (<["name" := name]> match_)
  else Ok (<["pid" := pid]> match_).

(** The lookup that ends [get_problem]. *)
Definition find_problem (match_ : doc) (w : world) : result doc :=
  match Mongo.find_one match_ (problems w) with
  | Some problem => Ok problem
  | None => Raise (SevereInternalException "Could not find problem!")
  end.

(** [get_problem(pid, name)] called without a [tid], as every caller in
    the module does; [get_problem] below is the function with all its
    arguments. *)
Definition get_problem_no_tid (pid name : value) (show_disabled : bool)
    (w : world) : result doc :=
  match_ ← problem_match pid name show_disabled;
  find_problem match_ w.

(** One round of the comprehension of [get_solved_pids]. *)
Definition solved_pid_of (sub : doc) : result (list value) :=
  c ← doc_get sub "correct";
  if py_eq c (VBool true) then p ← doc_get sub "pid"; Ok [p] else Ok [].

(** [get_solved_pids(tid, category)] *)
Definition get_solved_pids (tid category : value) (w : world)
  : result (list value) :=
  @concat value <$> mapM solved_pid_of (get_submissions VNone VNone tid category w).

(** [get_solved_problems(tid, category)] *)
Definition get_solved_problems (tid category : value) (w : world)
  : result (list doc) :=
  pids ← get_solved_pids tid category w;
  mapM (λ pid, get_problem_no_tid pid VNone false w) pids.

(** [problem['weightmap'].get(p['pid'], 0)] *)
Definition weight_of (problem p : doc) : result Z :=
  wm ← doc_get problem "weightmap";
  match wm with
  | VDict m =>
      pid ← doc_get p "pid";
      match pid with
      | VStr s => Ok (default 0 (m !! s))
      | VList _ | VDict _ => Raise TypeError
      | _ => Ok 0
      end
  | _ => Raise AttributeError
  end.

(** [sum(...)] *)
Definition sum (l : list Z) : Z := foldr Z.add 0 l.

(** One round of the loop of [get_unlocked_pids]: what it appends. *)
Definition unlock_step (solved : list doc) (problem : doc)
  : result (list value) :=
  if negb (has_key problem "weightmap") || negb (has_key problem "threshold")
  then pid ← doc_get problem "pid"; Ok [pid]
  else
    weights ← mapM (weight_of problem) solved;
    let weightsum := sum weights in
    threshold ← doc_get problem "threshold";
    unlocked ← py_ge weightsum threshold;
    if (unlocked : bool) then pid ← doc_get problem "pid"; Ok [pid] else Ok [].

(** [get_unlocked_pids(tid, category)] *)
Definition get_unlocked_pids (tid category : value) (w : world)
  : result (list value) :=
  solved ← get_solved_problems tid category w;
  @concat value <$> mapM (unlock_step solved) (get_all_problems VNone false w).


(** [get_problem(pid, name, tid, show_disabled)] *)
Definition get_problem (pid name tid : value) (show_disabled : bool)
    (w : world) : result doc :=
  match_ ← problem_match pid name show_disabled;
  _ ← (if decide (tid = VNone) then Ok ()
       else
         unlocked ← get_unlocked_pids tid VNone w;
         if py_in pid unlocked then Ok ()
         else Raise (InternalException "You cannot get this problem"));
  find_problem match_ w.

(** [grade_problem(pid, key, uid)] *)
Definition grade_problem (pid key uid : value) : M grade_result :=
  problem ← read (get_problem_no_tid pid VNone false);
  grader ← lift (doc_get problem "grader");
  match grader with
  | VStr path =>
      match load_grader path with
      | Some grade =>
          _ ← modify (log_call (GraderCall path uid key));
          let '(correct, message) := grade uid key in
          score ← lift (doc_get problem "score");
          mret (GradeResult correct score message)
      | None =>
          again ← read (get_problem_no_tid pid VNone false);
          name ← lift (doc_get again "name");
          raise (WebException
                   ("Problem grader for " +:+ py_str name +:+ " is offline."))
      end
  | _ => raise TypeError
  end.

(** The pair the duplicate check of [submit_key] takes from a stored
    submission. *)
Definition key_pid_of (submission : doc) : result (value * value) :=
  k ← doc_get submission "key";
  p ← doc_get submission "pid";
  Ok (k, p).

(** The submission [submit_key] builds. *)
Definition submission_record (uid tid : value) (now : Z)
    (pid ip key category : value) (correct : bool) : doc :=
  <["correct" := VBool correct]>
  (<["category" := category]>
  (<["key" := key]>
  (<["ip" := ip]>
  (<["pid" := pid]>
  (<["timestamp" := VDate now]>
  (<["tid" := tid]>
  (<["uid" := uid]> ∅))))))).

(** [submit_key(tid, pid, key, uid, ip)]; [now] is what [datetime.now()]
    returns during the call. *)
Definition submit_key (tid pid key uid ip : value) (now : Z)
  : M grade_result :=
  _ ← lift (validate submission_schema
              (<["key" := key]> (<["pid" := pid]> (<["tid" := tid]> ∅))));
  unlocked ← read (get_unlocked_pids tid VNone);
  if negb (py_in pid unlocked) then
    raise (InternalException
             "You can't submit flags to problems you haven't unlocked.")
  else
  solved ← read (get_solved_pids tid VNone);
  if py_in pid solved then
    raise (WebException "You have already solved this problem.")
  else
  match get_user uid with
  | None => raise (InternalException "User submitting flag does not exist.")
  | Some user =>
  uid ← lift (doc_get user "uid");
  result ← grade_problem pid key uid;
  problem ← read (get_problem_no_tid pid VNone false);
  category ← lift (doc_get problem "category");
  let submission :=
    submission_record uid tid now pid ip key category (correct result) in
  tried ← read (λ w, mapM key_pid_of (get_submissions VNone VNone tid VNone w));
  if py_in_pairs (key, pid) tried then
    raise (WebException
             "You or one of your teammates has already tried this solution.")
  else
  _ ← modify (λ w, set_submissions (Mongo.insert submission (submissions w)) w);
  mret result
  end.

(** The loop of [insert_problem] over [problem["weightmap"].items()]. *)
Definition rehash_weightmap (m : gmap string Z) : gmap string Z :=
  map_fold (λ name weight weightmap, <[hash name := weight]> weightmap) ∅ m.

(** [insert_problem(problem)] *)
Definition insert_problem (problem : doc) : M string :=
  _ ← lift (validate problem_schema problem);
  let problem :=
    <["disabled" := default (VBool false) (problem !! "disabled")]> problem in
  name ← lift (doc_get problem "name");
  match name with
  | VStr n =>
      let problem := <["pid" := VStr (hash n)]> problem in
      weightmap ← lift (match problem !! "weightmap" with
                        | Some (VDict m) => Ok (rehash_weightmap m)
                        | Some v => if py_truthy v then Raise AttributeError
                                    else Ok ∅
                        | None => Ok ∅
                        end);
      let problem := <["weightmap" := VDict weightmap]> problem in
      by_pid ← read (λ w, Ok (safe_fail
                  (get_problem_no_tid (VStr (hash n)) VNone false w)));
      if bool_decide (is_Some by_pid) then
        raise (WebException "Problem with identical pid already exists.")
      else
      by_name ← read (λ w, Ok (safe_fail
                  (get_problem_no_tid VNone name false w)));
      if bool_decide (is_Some by_name) then
        raise (WebException "Problem with identical name already exists.")
      else
      _ ← modify (λ w, set_problems (Mongo.insert problem (problems w)) w);
      mret (hash n)
  | _ => raise AttributeError
  end.

(** What [insert_problem] stores for a valid payload named [n]: the
    payload with [disabled] defaulted, [pid] set and [weightmap] re-keyed. *)
Definition stored_problem (payload : doc) (n : string) : doc :=
  <["weightmap" :=
      VDict (match payload !! "weightmap" with
             | Some (VDict m) => rehash_weightmap m
             | _ => ∅
             end)]>
  (<["pid" := VStr (hash n)]>
  (<["disabled" := default (VBool false) (payload !! "disabled")]> payload)).

(** [remove_problem(pid)] *)
Definition remove_problem (pid : value) : M doc :=
  problem ← read (get_problem_no_tid pid VNone false);
  _ ← modify (λ w, set_problems
                     (Mongo.remove {["pid" := pid]} (problems w)) w);
  mret problem.

(** [update_problem(pid, updated_problem)]; [problem.update(d)] lets the
    fields of [d] win. *)
Definition update_problem (pid : value) (updated_problem : doc) : M doc :=
  problem ← read (get_problem_no_tid pid VNone false);
  let problem := updated_problem ∪ problem in
  _ ← lift (validate problem_schema problem);
  c ← read (λ w, Mongo.update {["pid" := pid]} problem false (problems w));
  _ ← modify (set_problems c);
  mret problem.

(** [set_problem_disabled(pid, disabled)] *)
Definition set_problem_disabled (pid : value) (disabled : value) : M doc :=
  update_problem pid {["disabled" := disabled]}.

(** [invalidate_submissions(pid, uid, tid)] *)
Definition invalidate_submissions (pid uid tid : value) : M unit :=
  let match_ := add_filter "pid" pid ∅ in
  let match_ :=
    if decide (uid = VNone) then add_filter "tid" tid match_
    else <["uid" := uid]> match_ in
  c ← read (λ w, Mongo.update match_ {["correct" := VBool false]} false
                   (submissions w));
  modify (set_submissions c).

(** [key in keys] for the dict [keys] of the re-grading loop, kept in
    insertion order. *)
Definition in_keys (key : value) (keys : list (value * option bool)) : bool :=
  existsb (λ kc, py_eq key kc.1) keys.

(** The first loop of [reevaluate_submissions_for_problem]: grade each
    distinct key once and note the outcome when it differs from the stored
    one. *)
Fixpoint regrade_keys (pid : value) (subs : list doc)
    (keys : list (value * option bool)) : M (list (value * option bool)) :=
  match subs with
  | [] => mret keys
  | submission :: rest =>
      key ← lift (doc_get submission "key");
      if negb (py_hashable key) then raise TypeError
      else if in_keys key keys then regrade_keys pid rest keys
      else
        result ← grade_problem pid key VNone;
        stored ← lift (doc_get submission "correct");
        let change :=
          if py_eq (VBool (correct result)) stored then None
          else Some (correct result) in
        regrade_keys pid rest (keys ++ [(key, change)])
  end.

(** The second loop: one bulk update for each key whose outcome changed. *)
Fixpoint apply_changes (keys : list (value * option bool)) : M unit :=
  match keys with
  | [] => mret ()
  | (key, change) :: rest =>
      match change with
      | Some b =>
          c ← read (λ w, Mongo.update {["key" := key]}
                           {["correct" := VBool b]} true (submissions w));
          _ ← modify (set_submissions c);
          apply_changes rest
      | None => apply_changes rest
      end
  end.

(** [reevaluate_submissions_for_problem(pid)] *)
Definition reevaluate_submissions_for_problem (pid : value) : M unit :=
  problem ← read (get_problem_no_tid pid VNone false);
  subs ← read (λ w, Ok (get_submissions pid VNone VNone VNone w));
  keys ← regrade_keys pid subs [];
  apply_changes keys.

End Api.

(** ** The shape of a stored problem *)

(** What the unlock computation relies on in a stored problem: it has a
    [pid], and its [weightmap], when it has one, is a dict.  Every problem
    [insert_problem] stores is of this shape. *)
Definition stored_shape (q : doc) : bool :=
  has_key q "pid"
  && match q !! "weightmap" with
     | Some v => is_dict v
     | None => true
     end.

(** ** The errors of the module, by name *)

Definition not_found : exn :=
  SevereInternalException "Could not find problem!".

Definition identical_pid : exn :=
  WebException "Problem with identical pid already exists.".

Definition identical_name : exn :=
  WebException "Problem with identical name already exists.".

Definition locked : exn :=
  InternalException "You can't submit flags to problems you haven't unlocked.".

Definition already_solved : exn :=
  WebException "You have already solved this problem.".

Definition already_tried : exn :=
  WebException "You or one of your teammates has already tried this solution.".

Definition no_such_user : exn :=
  InternalException "User submitting flag does not exist.".

(** The rejections the specification calls conflict errors: a duplicate
    name or pid on insert, a duplicate (key, pid) submission, a submission
    for a problem already solved, a submission to a locked problem. *)
Definition is_conflict (e : exn) : bool :=
  bool_decide (e ∈ [identical_pid; identical_name; already_tried;
                    already_solved; locked]).


(** ** More of [api/problem.py] *)

(** [a == b] for two documents: the same keys, with equal values. *)
Definition py_eq_doc (a b : doc) : bool :=
  bool_decide (dom a = dom b)
  && bool_decide (map_Forall
       (λ k v, from_option (py_eq v) false (b !! k) = true) a).

(** The value a JSON blob of problems parses to: a list of objects, one
    object, or anything else.  The parsing itself ([json_util.loads]) is
    not modelled. *)
Inductive blob_value : Type :=
| BList (problems : list doc)
| BDict (problem : doc)
| BOther.

Section MoreApi.

Variable hash : string → string.

(** [isfile(join(grader_base_path, path))] *)
Variable isfile : string → bool.

(** [get_correct_submissions(pid, uid, tid, category)] *)
Definition get_correct_submissions (pid uid tid category : value) (w : world)
  : result (list doc) :=
  let match_ : doc := {["correct" := VBool true]} in
  match_ ← (if decide (uid = VNone) then
              if decide (tid = VNone) then
                Raise (InternalException "Must specify uid or tid")
              else Ok (<["tid" := tid]> match_)
            else Ok (<["uid" := uid]> match_));
  let match_ := add_filter "pid" pid match_ in
  let match_ := add_filter "category" category match_ in
  Ok (Mongo.find match_ (submissions w)).

(** [clear_all_submissions()] *)
Definition clear_all_submissions : M unit :=
  modify (set_submissions []).

(** [clear_submissions(uid, tid)]; what pymongo's [remove] returns is not
    modelled. *)
Definition clear_submissions (uid tid : value) : M unit :=
  match_ ← lift (if decide (uid = VNone) then
                   if decide (tid = VNone) then
                     Raise (InternalException
                              "You must supply either a tid or uid")
                   else Ok (<["tid" := tid]> (∅ : doc))
                 else Ok (<["uid" := uid]> (∅ : doc)));
  modify (λ w, set_submissions (Mongo.remove match_ (submissions w)) w).

(** [get_unlocked_problems(tid, category)] *)
Definition get_unlocked_problems (tid category : value) (w : world)
  : result (list doc) :=
  solved ← get_solved_problems tid VNone w;
  pids ← get_unlocked_pids tid category w;
  unlocked ← mapM (λ pid, get_problem_no_tid pid VNone false w) pids;
  Ok ((λ problem : doc,
         <["solved" := VBool (existsb (py_eq_doc problem) solved)]> problem)
        <$> unlocked).

(** The two messages of [analyze_problems]. *)
Definition grader_missing_error (name grader : value) : string :=
  py_str name +:+ ": Missing grader at '" +:+ py_str grader +:+ "'.".

Definition unknown_weightmap_pid (name : value) (pid : string) : string :=
  py_str name +:+ ": Has weightmap entry '" +:+ pid
    +:+ "' which does not exist.".

(** One round of the inner loop of [analyze_problems]. *)
Definition analyze_weightmap_key (problem : doc) (w : world) (pid : string)
  : result (list string) :=
  match safe_fail (get_problem_no_tid (VStr pid) VNone false w) with
  | None =>
      name ← doc_get problem "name";
      Ok [unknown_weightmap_pid name pid]
  | Some _ => Ok []
  end.

(** One round of the outer loop of [analyze_problems].  The keys of the
    weightmap are visited in the order of the finite map, which need not be
    the order Python visits them in; whether the result is empty does not
    depend on it. *)
Definition analyze_problem (w : world) (problem : doc)
  : result (list string) :=
  grader ← doc_get problem "grader";
  match grader with
  | VStr path =>
      missing ← (if isfile path then Ok []
                 else name ← doc_get problem "name";
                      Ok [grader_missing_error name grader]);
      weightmap ← doc_get problem "weightmap";
      match weightmap with
      | VDict m =>
          unknown ← mapM (analyze_weightmap_key problem w)
                         ((map_to_list m).*1);
          Ok (missing ++ concat unknown)
      | _ => Raise AttributeError
      end
  | _ => Raise TypeError
  end.

(** [analyze_problems()] *)
Definition analyze_problems (w : world) : result (list string) :=
  @concat string <$> mapM (analyze_problem w) (get_all_problems VNone false w).

(** [insert_problem_from_json(blob)], from the parsed blob on: a list of
    pids for a list of problems, one pid for one problem. *)
Definition insert_problem_from_json (blob : blob_value)
  : M (list string + string) :=
  match blob with
  | BList problems =>
      pids ← mapM (insert_problem hash) problems;
      mret (inl pids)
  | BDict problem =>
      pid ← insert_problem hash problem;
      mret (inr pid)
  | BOther =>
      raise (InternalException
               "JSON blob does not appear to be a list of problems or a single problem.")
  end.

End MoreApi.

(** [problem['weightmap'].get(pid, 0)] for a solved pid as stored. *)
Definition weight_in (m : gmap string Z) (pid : value) : Z :=
  match pid with
  | VStr s => default 0 (m !! s)
  | _ => 0
  end.

(** The errors a reading function raises on a malformed document or a
    problem it cannot find. *)
Definition lookup_error (e : exn) : Prop :=
  match e with
  | KeyError _ | TypeError | AttributeError => True
  | _ => e = not_found
         ∨ e = InternalException "Must supply pid or display name"
  end.

(** ** A small competition, used to run the functions *)

Module Fixture.

Definition hash (name : string) : string := "#" +:+ name.

(** One grader script, [flag1.py], which accepts the key ["flag1"]. *)
Definition load_grader (path : string)
  : option (value → value → bool * string) :=
  if bool_decide (path = "flag1.py") then
    Some (λ _ key, if py_eq key (VStr "flag1") then (true, "Correct!")
                   else (false, "Nope"))
  else None.

(** One user, [u1]. *)
Definition get_user (uid : value) : option doc :=
  if bool_decide (uid = VStr "u1") then Some {["uid" := VStr "u1"]}
  else None.

(** A problem as a client sends it to [insert_problem]. *)
Definition payload (name category : string) (threshold : Z)
    (weightmap : gmap string Z) : doc :=
  <["name" := VStr name]>
  (<["score" := VInt 10]>
  (<["category" := VStr category]>
  (<["grader" := VStr "flag1.py"]>
  (<["description" := VStr ""]>
  (<["threshold" := VInt threshold]>
  (<["weightmap" := VDict weightmap]> ∅)))))).

(** The same problem as [insert_problem] stores it; [weightmap] is keyed
    by pid here. *)
Definition stored (name category : string) (threshold : Z)
    (weightmap : gmap string Z) (disabled : bool) : doc :=
  <["pid" := VStr (hash name)]>
  (<["disabled" := VBool disabled]> (payload name category threshold weightmap)).

(** A stored submission. *)
Definition submission (uid tid pid key category : string) (ok : bool) : doc :=
  <["correct" := VBool ok]>
  (<["category" := VStr category]>
  (<["key" := VStr key]>
  (<["ip" := VNone]>
  (<["pid" := VStr pid]>
  (<["timestamp" := VDate 0]>
  (<["tid" := VStr tid]>
  (<["uid" := VStr uid]> ∅))))))).

(** Problem A is open to all; problem B needs weight 5, which A gives. *)
Definition problem_A : doc := stored "A" "web" 0 ∅ false.
Definition problem_B : doc := stored "B" "crypto" 5 {["#A" := 5]} false.

(** Team [t1] has two correct submissions, team [t2] has one. *)
Definition two_of_t1 : world :=
  World [problem_A; problem_B]
        [ submission "u1" "t1" "#A" "flag1" "web" true;
          submission "u1" "t1" "#B" "flag1" "crypto" true;
          submission "u2" "t2" "#A" "flag1" "web" true ]
        [].

(** The key ["flag1"] was stored as wrong for problem A, whose grader
    accepts it, and also for problem B. *)
Definition flag1_stored_wrong : world :=
  World [problem_A; problem_B]
        [ submission "u1" "t1" "#A" "flag1" "web" false;
          submission "u1" "t1" "#B" "flag1" "crypto" false ]
        [].

(** Team [t1] has solved A, a problem of category ["web"]. *)
Definition solved_A : world :=
  World [problem_A; problem_B]
        [ submission "u1" "t1" "#A" "flag1" "web" true ]
        [].

(** A store where the only problem named A is disabled. *)
Definition disabled_A : world :=
  World [stored "A" "web" 0 ∅ true] [] [].

(** A payload that asks for a disabled problem. *)
Definition payload_disabled_C : doc :=
  <["disabled" := VBool true]> (payload "C" "web" 0 ∅).

Definition empty_store : world := World [] [] [].

(** Team [t1] has tried the key ["wrong"] on problem A, and it was wrong. *)
Definition tried_wrong : world :=
  World [problem_A; problem_B]
        [ submission "u1" "t1" "#A" "wrong" "web" false ]
        [].

(** A key of 101 characters. *)
Fixpoint letters (n : nat) : string :=
  match n with
  | O => ""
  | S n => "a" +:+ letters n
  end.

Definition long_key : string := letters 101.

(** Problem Z has a weightmap and threshold 0. *)
Definition problem_Z : doc := stored "Z" "web" 0 {["#A" := 5]} false.

Definition threshold_zero : world :=
  World [problem_A; problem_Z] [] [].

(** Problems A and B, and no submission yet. *)
Definition fresh_store : world :=
  World [problem_A; problem_B] [] [].


Definition after_right : world :=
  (submit_key load_grader get_user (VStr "t1") (VStr "#A") (VStr "flag1")
     (VStr "u1") VNone 1 fresh_store).2.

(** Which grader scripts exist: [flag1.py] only. *)
Definition isfile (path : string) : bool := bool_decide (path = "flag1.py").

(** Team [t1] has solved A, and A has been disabled since. *)
Definition solved_then_disabled : world :=
  World [stored "A" "web" 0 ∅ true; problem_B]
        [ submission "u1" "t1" "#A" "flag1" "web" true ]
        [].

(** Problem E is stored without a threshold. *)
Definition problem_E : doc := delete "threshold" (stored "E" "web" 0 ∅ false).

Definition store_with_E : world :=
  World [problem_E; problem_B] [] [].

End Fixture.


(** * Properties *)

(** ** Reasoning about computations that may raise *)

Lemma result_bind_Ok {A B} (m : result A) (k : A → result B) (b : B) :
  m ≫= k = Ok b ↔ ∃ a, m = Ok a ∧ k a = Ok b.
Proof.
  destruct m as [a|e]; simpl; split.
  - eauto.
  - by intros (a' & [= ->] & ?).
  - discriminate.
  - by intros (a' & [=] & ?).
Qed.

Lemma result_bind_Raise {A B} (m : result A) (k : A → result B) (e : exn) :
  m ≫= k = Raise e → m = Raise e ∨ ∃ a, m = Ok a ∧ k a = Raise e.
Proof.
  destruct m as [a|e']; intros H.
  - right. by exists a.
  - left. by injection H as ->.
Qed.

Lemma result_fmap_Ok {A B} (f : A → B) (m : result A) (b : B) :
  f <$> m = Ok b ↔ ∃ a, m = Ok a ∧ b = f a.
Proof.
  destruct m as [a|e]; simpl; split.
  - intros [= <-]. eauto.
  - by intros (a' & [= ->] & ->).
  - discriminate.
  - by intros (a' & [=] & ?).
Qed.

Lemma result_fmap_Raise {A B} (f : A → B) (m : result A) (e : exn) :
  f <$> m = Raise e → m = Raise e.
Proof. destruct m; intros H; [done | by injection H as ->]. Qed.

Lemma mapM_Ok {A B} (f : A → result B) (l : list A) (k : list B) :
  mapM f l = Ok k ↔ Forall2 (λ x y, f x = Ok y) l k.
Proof.
  revert k. induction l as [|x l IH]; intros k; simpl.
  - split; [intros [= <-]; constructor | by inversion 1].
  - split.
    + destruct (f x) as [y|] eqn:Hx; simpl; [|discriminate].
      destruct (mapM f l) as [k'|] eqn:Hl; simpl; [|discriminate].
      intros [= <-]. constructor; [done|]. by apply IH.
    + inversion 1 as [|? y ? k' Hx Hl]; subst.
      apply IH in Hl. by rewrite Hx, Hl.
Qed.

Lemma mapM_Raise {A B} (f : A → result B) (l : list A) (e : exn) :
  mapM f l = Raise e → ∃ x, x ∈ l ∧ f x = Raise e.
Proof.
  induction l as [|x l IH]; cbn [mapM]; [done|].
  destruct (f x) as [y|e'] eqn:Hx; cbn [mbind result_bind].
  - destruct (mapM f l) as [k|e'] eqn:Hl; cbn [mbind result_bind]; [done|].
    intros [= ->]. destruct IH as (x' & Hin & Hx'); [done|].
    exists x'. split; [by right | done].
  - intros [= ->]. exists x. split; [by left | done].
Qed.

Lemma mapM_app_Ok {A B} (f : A → result B) (l1 l2 : list A) (k1 k2 : list B) :
  mapM f l1 = Ok k1 → mapM f l2 = Ok k2 → mapM f (l1 ++ l2) = Ok (k1 ++ k2).
Proof.
  rewrite !mapM_Ok. apply Forall2_app.
Qed.



Lemma Forall2_elem_of_r {A B} (P : A → B → Prop) (l : list A) (k : list B)
    (y : B) :
  Forall2 P l k → y ∈ k → ∃ x, x ∈ l ∧ P x y.
Proof.
  intros HF Hy. apply list_elem_of_lookup in Hy as [i Hi].
  destruct (Forall2_lookup_r _ _ _ _ _ HF Hi) as (x & Hx & HP).
  exists x. split; [|done]. apply list_elem_of_lookup. eauto.
Qed.

Lemma Forall2_elem_of_l {A B} (P : A → B → Prop) (l : list A) (k : list B)
    (x : A) :
  Forall2 P l k → x ∈ l → ∃ y, y ∈ k ∧ P x y.
Proof.
  intros HF Hx. apply list_elem_of_lookup in Hx as [i Hi].
  destruct (Forall2_lookup_l _ _ _ _ _ HF Hi) as (y & Hy & HP).
  exists y. split; [|done]. apply list_elem_of_lookup. eauto.
Qed.

Lemma elem_of_concat {A} (x : A) (ls : list (list A)) :
  x ∈ concat ls ↔ ∃ l, l ∈ ls ∧ x ∈ l.
Proof.
  rewrite list_elem_of_In, in_concat.
  split; intros (l & Hl & Hx); exists l; by rewrite ?list_elem_of_In in *.
Qed.

Lemma doc_get_Ok (d : doc) (k : string) (v : value) :
  doc_get d k = Ok v ↔ d !! k = Some v.
Proof. unfold doc_get. destruct (d !! k); split; congruence. Qed.

Lemma doc_get_Raise (d : doc) (k : string) (e : exn) :
  doc_get d k = Raise e → e = KeyError k.
Proof. unfold doc_get. destruct (d !! k); congruence. Qed.

(** ** Python equality *)

Lemma py_eq_refl (v : value) : py_eq v v = true.
Proof. destruct v; by apply bool_decide_eq_true_2. Qed.

Lemma py_eq_str (s : string) (v : value) :
  py_eq (VStr s) v = true ↔ v = VStr s.
Proof. unfold py_eq. rewrite bool_decide_eq_true. split; congruence. Qed.

Lemma py_eq_bool_true (b : bool) : py_eq (VBool b) (VBool true) = b.
Proof. by destruct b. Qed.

Lemma py_in_str (s : string) (l : list value) :
  py_in (VStr s) l = true ↔ VStr s ∈ l.
Proof.
  unfold py_in. rewrite existsb_exists. split.
  - intros (v & Hv & Heq). apply py_eq_str in Heq as ->.
    by apply list_elem_of_In.
  - intros Hin. exists (VStr s). split; [by apply list_elem_of_In|].
    apply py_eq_refl.
Qed.


(** ** The store *)

Lemma matches_spec (spec d : doc) :
  Mongo.matches spec d = true ↔ ∀ k v, spec !! k = Some v → d !! k = Some v.
Proof. unfold Mongo.matches. by rewrite bool_decide_eq_true. Qed.

Lemma matches_insert (spec d : doc) (k : string) (v : value) :
  Mongo.matches (<[k := v]> spec) d = true →
  d !! k = Some v.
Proof. rewrite matches_spec. intros H. apply H. by rewrite lookup_insert_eq. Qed.

Lemma find_app (spec : doc) (c1 c2 : list doc) :
  Mongo.find spec (c1 ++ c2) = Mongo.find spec c1 ++ Mongo.find spec c2.
Proof. apply List.filter_app. Qed.

Lemma elem_of_find (spec d : doc) (c : list doc) :
  d ∈ Mongo.find spec c ↔ d ∈ c ∧ Mongo.matches spec d = true.
Proof. unfold Mongo.find. rewrite !list_elem_of_In. apply List.filter_In. Qed.

Lemma find_one_Some (spec d : doc) (c : list doc) :
  Mongo.find_one spec c = Some d → d ∈ c ∧ Mongo.matches spec d = true.
Proof.
  unfold Mongo.find_one. intros H. apply elem_of_find.
  destruct (Mongo.find spec c); simplify_eq/=. by left.
Qed.

Lemma find_one_None (spec : doc) (c : list doc) :
  Mongo.find_one spec c = None ↔ ∀ d, d ∈ c → Mongo.matches spec d = false.
Proof.
  unfold Mongo.find_one. split.
  - intros H d Hd. destruct (Mongo.matches spec d) eqn:Hm; [|done].
    assert (d ∈ Mongo.find spec c) as Hin by by apply elem_of_find.
    destruct (Mongo.find spec c); [by apply elem_of_nil in Hin | done].
  - intros H. destruct (Mongo.find spec c) as [|d l] eqn:Hf; [done|].
    assert (d ∈ Mongo.find spec c) as Hin by (rewrite Hf; left).
    apply elem_of_find in Hin as [Hin Hm]. rewrite (H d Hin) in Hm. done.
Qed.

Lemma find_one_nil (spec : doc) (c : list doc) :
  Mongo.find_one spec c = None → Mongo.find spec c = [].
Proof. unfold Mongo.find_one. by destruct (Mongo.find spec c). Qed.

Lemma elem_of_sort_ascending (field : string) (d : doc) (c : list doc) :
  d ∈ Mongo.sort_ascending field c ↔ d ∈ c.
Proof. unfold Mongo.sort_ascending. by rewrite merge_sort_Permutation. Qed.

(** ** Invalidation and re-grading *)

(** C1.  Invalidating by team does not do what the claim says.  Team [t1]
    has two correct submissions.  After [invalidate_submissions(tid="t1")]
    the first of them has been replaced by the bare document
    [{"correct": False}], losing its [uid], [tid], [pid], [key] and the
    rest, and the second is still marked correct.  The submission of the
    other team is as it was. *)
Theorem invalidate_submissions_two_of_team :
  invalidate_submissions VNone VNone (VStr "t1") Fixture.two_of_t1 =
    (Ok (),
     World [Fixture.problem_A; Fixture.problem_B]
           [ {["correct" := VBool false]};
             Fixture.submission "u1" "t1" "#B" "flag1" "crypto" true;
             Fixture.submission "u2" "t2" "#A" "flag1" "web" true ]
           []).
Proof. vm_compute. reflexivity. Qed.

(** C2.  Re-grading does not do what the claim says.  The key ["flag1"] is
    stored as wrong for problem A and the grader of A now accepts it.
    [reevaluate_submissions_for_problem] grades the key once, finds the
    change, and its bulk update is refused by the store: the call raises
    and no submission is flipped.  Besides, the filter of that update is
    [{"key": "flag1"}] alone, and it matches the submission made with the
    same text for problem B. *)
Theorem reevaluate_submissions_changed_key :
  reevaluate_submissions_for_problem Fixture.load_grader (VStr "#A")
      Fixture.flag1_stored_wrong =
    (Raise (OperationFailure "multi update only works with $ operators"),
     log_call (GraderCall "flag1.py" VNone (VStr "flag1"))
              Fixture.flag1_stored_wrong)
  ∧ Mongo.matches {["key" := VStr "flag1"]}
      (Fixture.submission "u1" "t1" "#B" "flag1" "crypto" false) = true.
Proof. split; vm_compute; reflexivity. Qed.

(** ** Validation *)

Lemma validate_Ok (schema : list rule) (data : doc) :
  validate schema data = Ok () →
  ∀ r, r ∈ schema → check_rule data r = Ok ().
Proof.
  unfold validate. intros H.
  apply result_bind_Ok in H as (us & Hus & _).
  apply mapM_Ok in Hus. apply Forall_forall.
  induction Hus as [|r [] schema us Hr _ IH]; constructor; done.
Qed.

Lemma validate_Raise (schema : list rule) (data : doc) (e : exn) :
  validate schema data = Raise e → ∃ msg, e = ValidationError msg.
Proof.
  unfold validate. intros H.
  apply result_bind_Raise in H as [H|(us & _ & H)].
  - apply mapM_Raise in H as (r & _ & H). unfold check_rule in H.
    destruct (data !! r_key r) as [v|].
    + destruct (r_check r v); [done|]. injection H as <-. by eexists.
    + destruct (r_required r); [|done]. injection H as <-. by eexists.
  - case_bool_decide; [done|]. injection H as <-. by eexists.
Qed.

Lemma validate_field (schema : list rule) (data : doc) (r : rule) :
  validate schema data = Ok () →
  r ∈ schema →
  match data !! r_key r with
  | Some v => r_check r v = true
  | None => r_required r = false
  end.
Proof.
  intros H Hr. pose proof (validate_Ok _ _ H r Hr) as Hc.
  unfold check_rule in Hc.
  destruct (data !! r_key r) as [v|].
  - by destruct (r_check r v).
  - by destruct (r_required r).
Qed.

Ltac in_schema := repeat constructor.

Lemma validate_problem_name (payload : doc) :
  validate problem_schema payload = Ok () →
  ∃ n, payload !! "name" = Some (VStr n).
Proof.
  intros H.
  pose proof (validate_field _ _ (Rule "name" true
    "The problem's display name must be a string." is_str) H
    ltac:(in_schema)) as Hn.
  simpl in Hn. destruct (payload !! "name") as [[]|]; try done. eauto.
Qed.

Lemma validate_problem_disabled (payload : doc) :
  validate problem_schema payload = Ok () →
  payload !! "disabled" = None ∨ ∃ b, payload !! "disabled" = Some (VBool b).
Proof.
  intros H.
  pose proof (validate_field _ _ (Rule "disabled" false
    "A problem's disabled state is either True or False." is_bool) H
    ltac:(in_schema)) as Hn.
  simpl in Hn. destruct (payload !! "disabled") as [[]|]; try done; eauto.
Qed.

Lemma validate_problem_weightmap (payload : doc) :
  validate problem_schema payload = Ok () →
  payload !! "weightmap" = None ∨ ∃ m, payload !! "weightmap" = Some (VDict m).
Proof.
  intros H.
  pose proof (validate_field _ _ (Rule "weightmap" false
    "Weightmap should be a dict." is_dict) H ltac:(in_schema)) as Hn.
  simpl in Hn. destruct (payload !! "weightmap") as [[]|]; try done; eauto.
Qed.

Lemma validate_problem_no_pid (payload : doc) :
  validate problem_schema payload = Ok () → payload !! "pid" = None.
Proof.
  intros H.
  pose proof (validate_field _ _ (Rule "pid" false
    "You should not specify a pid for a problem." (λ _, false)) H
    ltac:(in_schema)) as Hn.
  simpl in Hn. by destruct (payload !! "pid").
Qed.

Lemma validate_submission_strings (tid pid key : value) :
  validate submission_schema
    (<["key" := key]> (<["pid" := pid]> (<["tid" := tid]> ∅))) = Ok () →
  is_str_max 100 tid = true ∧ is_str_max 100 pid = true
  ∧ is_str_max 100 key = true.
Proof.
  intros H.
  pose proof (validate_field _ _ (Rule "tid" true
    "This does not look like a valid tid." (is_str_max 100)) H
    ltac:(in_schema)) as Ht.
  pose proof (validate_field _ _ (Rule "pid" true
    "This does not look like a valid pid." (is_str_max 100)) H
    ltac:(in_schema)) as Hp.
  pose proof (validate_field _ _ (Rule "key" true
    "This does not look like a valid key." (is_str_max 100)) H
    ltac:(in_schema)) as Hk.
  cbn [r_key r_check r_required] in *.
  rewrite lookup_insert_ne, lookup_insert_ne, lookup_insert_eq in Ht by done.
  rewrite lookup_insert_ne, lookup_insert_eq in Hp by done.
  rewrite lookup_insert_eq in Hk.
  done.
Qed.

Lemma is_str_max_inv (n : nat) (v : value) :
  is_str_max n v = true → ∃ s, v = VStr s ∧ (String.length s ≤ n)%nat.
Proof.
  destruct v; try done. simpl. rewrite bool_decide_eq_true. eauto.
Qed.

Lemma validate_submission_shape (tid pid key : string) :
  (String.length tid ≤ 100)%nat →
  (String.length pid ≤ 100)%nat →
  (String.length key ≤ 100)%nat →
  validate submission_schema
    (<["key" := VStr key]> (<["pid" := VStr pid]> (<["tid" := VStr tid]> ∅)))
  = Ok ().
Proof.
  intros Ht Hp Hk.
  set (data := <["key" := VStr key]> (<["pid" := VStr pid]>
                 (<["tid" := VStr tid]> (∅ : doc)))).
  assert (data !! "tid" = Some (VStr tid)) as Et
    by (unfold data; rewrite lookup_insert_ne by done;
        rewrite lookup_insert_ne by done; apply lookup_insert_eq).
  assert (data !! "pid" = Some (VStr pid)) as Ep
    by (unfold data; rewrite lookup_insert_ne by done;
        apply lookup_insert_eq).
  assert (data !! "key" = Some (VStr key)) as Ek
    by (unfold data; by rewrite lookup_insert_eq).
  unfold validate, submission_schema.
  cbn [mapM]. unfold check_rule. cbn [r_key r_check r_required r_msg].
  rewrite Et, Ep, Ek.
  cbn [is_str_max].
  rewrite (bool_decide_eq_true_2 _ Ht), (bool_decide_eq_true_2 _ Hp),
    (bool_decide_eq_true_2 _ Hk).
  cbn [mbind result_bind mret result_ret].
  rewrite bool_decide_eq_true_2; [done|].
  unfold data.
  repeat apply map_Forall_insert_2; [..|apply map_Forall_empty];
    cbn [fmap list_fmap r_key]; repeat constructor.
Qed.

(** ** Looking a problem up *)

Lemma get_problem_tid_None (pid name : value) (sd : bool) (w : world) :
  get_problem pid name VNone sd w = get_problem_no_tid pid name sd w.
Proof.
  unfold get_problem, get_problem_no_tid.
  by destruct (problem_match pid name sd).
Qed.

Lemma problem_match_Ok (pid name : value) (sd : bool) (m : doc) :
  problem_match pid name sd = Ok m →
  m !! "disabled" = Some (VBool sd)
  ∧ (pid ≠ VNone → m = <["pid" := pid]> {["disabled" := VBool sd]})
  ∧ (pid = VNone → m = <["name" := name]> {["disabled" := VBool sd]}).
Proof.
  unfold problem_match.
  destruct (decide (pid = VNone)) as [->|Hp].
  - destruct (decide (name = VNone)); [done|]. intros [= <-].
    by rewrite lookup_insert_ne, lookup_singleton_eq.
  - intros [= <-]. by rewrite lookup_insert_ne, lookup_singleton_eq.
Qed.

Lemma find_problem_Ok (m : doc) (w : world) (p : doc) :
  find_problem m w = Ok p → p ∈ problems w ∧ Mongo.matches m p = true.
Proof.
  unfold find_problem.
  destruct (Mongo.find_one m (problems w)) as [q|] eqn:Hf; [|done].
  intros [= <-]. by apply find_one_Some.
Qed.

Lemma find_problem_Raise (m : doc) (w : world) (e : exn) :
  find_problem m w = Raise e →
  e = not_found ∧ ∀ p, p ∈ problems w → Mongo.matches m p = false.
Proof.
  unfold find_problem.
  destruct (Mongo.find_one m (problems w)) as [q|] eqn:Hf; [done|].
  intros [= <-]. split; [done|]. by apply find_one_None.
Qed.

Lemma get_problem_no_tid_Ok (pid name : value) (sd : bool) (w : world) (p : doc) :
  get_problem_no_tid pid name sd w = Ok p →
  p ∈ problems w
  ∧ p !! "disabled" = Some (VBool sd)
  ∧ (pid ≠ VNone → p !! "pid" = Some pid)
  ∧ (pid = VNone → p !! "name" = Some name).
Proof.
  unfold get_problem_no_tid. intros H.
  apply result_bind_Ok in H as (m & Hm & Hf).
  apply problem_match_Ok in Hm as (Hd & Hpid & Hname).
  apply find_problem_Ok in Hf as [Hin Hmatch].
  rewrite matches_spec in Hmatch.
  repeat split; [done|by apply Hmatch|..].
  - intros Hp. apply Hmatch. rewrite (Hpid Hp). apply lookup_insert_eq.
  - intros Hp. apply Hmatch. rewrite (Hname Hp). apply lookup_insert_eq.
Qed.

Lemma get_problem_no_tid_Raise (pid name : value) (sd : bool) (w : world)
    (e : exn) :
  get_problem_no_tid pid name sd w = Raise e →
  e = InternalException "Must supply pid or display name" ∨ e = not_found.
Proof.
  unfold get_problem_no_tid, problem_match.
  destruct (decide (pid = VNone)); [destruct (decide (name = VNone))|];
    cbn [mbind result_bind]; intros H.
  - left. congruence.
  - right. by apply find_problem_Raise in H as [-> _].
  - right. by apply find_problem_Raise in H as [-> _].
Qed.



Lemma matches_pid_disabled (pid : value) (sd : bool) (p : doc) :
  Mongo.matches (<["pid" := pid]> {["disabled" := VBool sd]}) p = true ↔
  p !! "pid" = Some pid ∧ p !! "disabled" = Some (VBool sd).
Proof.
  rewrite matches_spec. split.
  - intros H. split; apply H.
    + apply lookup_insert_eq.
    + by rewrite lookup_insert_ne, lookup_singleton_eq.
  - intros [Hp Hd] k v. rewrite lookup_insert.
    case_decide; [by intros [= <-]; subst|].
    rewrite lookup_singleton. case_decide; [|done]. by intros [= <-]; subst.
Qed.

Lemma matches_name_disabled (name : value) (sd : bool) (p : doc) :
  Mongo.matches (<["name" := name]> {["disabled" := VBool sd]}) p = true ↔
  p !! "name" = Some name ∧ p !! "disabled" = Some (VBool sd).
Proof.
  rewrite matches_spec. split.
  - intros H. split; apply H.
    + apply lookup_insert_eq.
    + by rewrite lookup_insert_ne, lookup_singleton_eq.
  - intros [Hp Hd] k v. rewrite lookup_insert.
    case_decide; [by intros [= <-]; subst|].
    rewrite lookup_singleton. case_decide; [|done]. by intros [= <-]; subst.
Qed.

Lemma get_problem_by_pid_hidden (pid : value) (sd : bool) (w : world) :
  pid ≠ VNone →
  (∀ p, p ∈ problems w → p !! "pid" = Some pid →
        p !! "disabled" ≠ Some (VBool sd)) →
  get_problem_no_tid pid VNone sd w = Raise not_found.
Proof.
  intros Hpid Hall. unfold get_problem_no_tid, problem_match.
  rewrite decide_False by done. cbn [mbind result_bind].
  unfold find_problem.
  destruct (Mongo.find_one _ (problems w)) as [p|] eqn:Hf; [|done].
  apply find_one_Some in Hf as [Hin Hm].
  apply matches_pid_disabled in Hm as [Hp Hd]. by destruct (Hall p Hin Hp).
Qed.



Lemma elem_of_get_all_problems (w : world) (q : doc) :
  q ∈ get_all_problems VNone false w ↔
  q ∈ problems w ∧ q !! "disabled" = Some (VBool false).
Proof.
  unfold get_all_problems, add_filter.
  rewrite (decide_True (P := VNone = VNone)) by done.
  rewrite elem_of_sort_ascending, elem_of_find, matches_spec.
  split; intros [Hin Hm]; (split; [done|]).
  - apply Hm. apply lookup_singleton_eq.
  - intros k v. rewrite lookup_singleton. case_decide; [|done].
    intros [= <-]. by subst.
Qed.

(** ** Insertion, update and removal of problems *)

Section Lifecycle.

Variable hash : string → string.

(** [insert_problem] on a payload that passes the schema. *)
Lemma insert_problem_valid (payload : doc) (n : string) (w : world) :
  validate problem_schema payload = Ok () →
  payload !! "name" = Some (VStr n) →
  insert_problem hash payload w =
    if bool_decide (is_Some (safe_fail
         (get_problem_no_tid (VStr (hash n)) VNone false w)))
    then (Raise identical_pid, w)
    else if bool_decide (is_Some (safe_fail
         (get_problem_no_tid VNone (VStr n) false w)))
    then (Raise identical_name, w)
    else (Ok (hash n),
          set_problems (problems w ++ [stored_problem hash payload n]) w).
Proof.
  intros Hval Hname.
  unfold insert_problem, stored_problem.
  unfold mbind, M_bind, lift, read, raise, modify, mret, M_ret.
  rewrite Hval. unfold doc_get.
  rewrite lookup_insert_ne, Hname by done.
  rewrite !(lookup_insert_ne _ _ "weightmap") by done.
  destruct (validate_problem_weightmap _ Hval) as [->|[m ->]];
    repeat case_bool_decide; done.
Qed.

Lemma insert_problem_Ok_valid (payload : doc) (w w' : world) (pid : string) :
  insert_problem hash payload w = (Ok pid, w') →
  validate problem_schema payload = Ok ().
Proof.
  unfold insert_problem, mbind, M_bind, lift.
  by destruct (validate problem_schema payload) as [[]|e].
Qed.




(** The re-keyed weightmap holds, under [hash name], the weight the
    payload gives to [name], as long as no two names of the weightmap
    share a hash. *)
Lemma rehash_weightmap_lookup (m : gmap string Z) :
  (∀ a b, is_Some (m !! a) → is_Some (m !! b) → hash a = hash b → a = b) →
  ∀ k x, rehash_weightmap hash m !! k = Some x ↔
         ∃ a, hash a = k ∧ m !! a = Some x.
Proof.
  unfold rehash_weightmap.
  apply (map_fold_weak_ind (λ r m,
    (∀ a b, is_Some (m !! a) → is_Some (m !! b) → hash a = hash b → a = b) →
    ∀ k x, r !! k = Some x ↔ ∃ a, hash a = k ∧ m !! a = Some x)).
  - intros _ k x. rewrite lookup_empty. split; [done|].
    intros (a & _ & Ha). by rewrite lookup_empty in Ha.
  - intros i y m' r Hi IH Hinj k x.
    assert (∀ a b, is_Some (m' !! a) → is_Some (m' !! b) →
                   hash a = hash b → a = b) as Hinj'.
    { intros a b [xa Ha] [xb Hb]. apply Hinj.
      - destruct (decide (i = a)) as [->|]; [by rewrite lookup_insert_eq|].
        rewrite lookup_insert_ne by done. eauto.
      - destruct (decide (i = b)) as [->|]; [by rewrite lookup_insert_eq|].
        rewrite lookup_insert_ne by done. eauto. }
    destruct (decide (hash i = k)) as [<-|Hk].
    + rewrite lookup_insert_eq. split.
      * intros [= <-]. exists i. by rewrite lookup_insert_eq.
      * intros (a & Ha & Hx).
        assert (a = i) as ->.
        { apply Hinj; [by eauto | by rewrite lookup_insert_eq | done]. }
        rewrite lookup_insert_eq in Hx. congruence.
    + rewrite lookup_insert_ne by done. rewrite (IH Hinj' k x).
      split; intros (a & Ha & Hx); exists a; (split; [done|]).
      * rewrite lookup_insert_ne; [done|]. intros ->. done.
      * rewrite lookup_insert_ne in Hx; [done|]. intros ->. done.
Qed.

(** What the two checks of [insert_problem] do catch: a stored problem
    that is enabled and has the pid or the name of the payload.  The
    insert is then rejected and the store is as it was. *)
Lemma insert_problem_rejects_enabled_twin (payload : doc) (n : string)
    (w : world) (p : doc) :
  validate problem_schema payload = Ok () →
  payload !! "name" = Some (VStr n) →
  p ∈ problems w →
  p !! "disabled" = Some (VBool false) →
  p !! "pid" = Some (VStr (hash n)) ∨ p !! "name" = Some (VStr n) →
  ∃ e, insert_problem hash payload w = (Raise e, w) ∧ is_conflict e = true.
Proof.
  intros Hval Hname Hin Hd Hp.
  rewrite (insert_problem_valid payload n w Hval Hname).
  case_bool_decide as H1.
  { exists identical_pid. split; [reflexivity | vm_compute; reflexivity]. }
  case_bool_decide as H2.
  { exists identical_name. split; [reflexivity | vm_compute; reflexivity]. }
  exfalso. destruct Hp as [Hp|Hp].
  - apply H1. unfold get_problem_no_tid, problem_match, find_problem.
    rewrite decide_False by done. cbn [mbind result_bind].
    destruct (Mongo.find_one _ (problems w)) eqn:Hf; [by eexists|].
    rewrite find_one_None in Hf. specialize (Hf p Hin).
    pose proof (proj2 (matches_pid_disabled (VStr (hash n)) false p)
                  (conj Hp Hd)) as Hm.
    congruence.
  - apply H2. unfold get_problem_no_tid, problem_match, find_problem.
    rewrite decide_True by done. rewrite decide_False by done.
    cbn [mbind result_bind].
    destruct (Mongo.find_one _ (problems w)) eqn:Hf; [by eexists|].
    rewrite find_one_None in Hf. specialize (Hf p Hin).
    pose proof (proj2 (matches_name_disabled (VStr n) false p)
                  (conj Hp Hd)) as Hm.
    congruence.
Qed.

(** C8, amended.  When [insert_problem] accepts a payload that does not ask
    for a disabled problem, [get_problem] with the returned pid yields the
    payload plus three fields: [disabled] set to false, [pid] set to the
    hash of the name, and [weightmap] set to the re-keyed weightmap of the
    payload (the empty one when the payload has none), which gives to
    [hash name] the weight the payload gives to [name] as long as no two
    names of the weightmap share a hash. *)
Theorem insert_problem_then_get_problem (payload : doc) (w w' : world)
    (pid : string) :
  insert_problem hash payload w = (Ok pid, w') →
  payload !! "disabled" ≠ Some (VBool true) →
  ∃ (n : string) (m wm : gmap string Z),
    payload !! "name" = Some (VStr n)
    ∧ pid = hash n
    ∧ (payload !! "weightmap" = Some (VDict m)
       ∨ payload !! "weightmap" = None ∧ m = ∅)
    ∧ get_problem (VStr pid) VNone VNone false w' =
        Ok (<["weightmap" := VDict wm]>
            (<["pid" := VStr pid]>
            (<["disabled" := VBool false]> payload)))
    ∧ ((∀ a b, is_Some (m !! a) → is_Some (m !! b) →
               hash a = hash b → a = b) →
       ∀ k x, wm !! k = Some x ↔ ∃ a, hash a = k ∧ m !! a = Some x).
Proof.
  intros Hins Hdis.
  pose proof (insert_problem_Ok_valid _ _ _ _ Hins) as Hval.
  destruct (validate_problem_name _ Hval) as [n Hname].
  rewrite (insert_problem_valid payload n w Hval Hname) in Hins.
  case_bool_decide as H1; [discriminate|].
  case_bool_decide as H2; [discriminate|].
  injection Hins as <- <-.
  set (m := match payload !! "weightmap" with
            | Some (VDict m) => m
            | _ => ∅
            end).
  exists n, m, (rehash_weightmap hash m).
  assert (stored_problem hash payload n =
          <["weightmap" := VDict (rehash_weightmap hash m)]>
            (<["pid" := VStr (hash n)]>
            (<["disabled" := VBool false]> payload))) as Hstored.
  { unfold stored_problem, m.
    destruct (validate_problem_disabled _ Hval) as [->|[[] Hb]];
      [|done|rewrite Hb]; cbn [default];
      by destruct (validate_problem_weightmap _ Hval) as [->|[m' ->]]. }
  split; [done|]. split; [done|]. split.
  { unfold m.
    destruct (validate_problem_weightmap _ Hval) as [->|[m' ->]]; eauto. }
  split; [|apply rehash_weightmap_lookup].
  rewrite get_problem_tid_None.
  unfold get_problem_no_tid, problem_match, find_problem.
  rewrite decide_False by done. cbn [mbind result_bind].
  assert (Mongo.find_one (<["pid" := VStr (hash n)]>
            {["disabled" := VBool false]}) (problems w) = None) as Hnone.
  { destruct (Mongo.find_one _ (problems w)) eqn:Hf; [|done].
    exfalso. apply H1.
    unfold get_problem_no_tid, problem_match, find_problem.
    rewrite decide_False by done. cbn [mbind result_bind].
    rewrite Hf. by eexists. }
  unfold Mongo.find_one. cbn [set_problems problems].
  rewrite find_app, (find_one_nil _ _ Hnone). cbn [app].
  unfold Mongo.find. cbn [List.filter].
  rewrite (proj2 (matches_pid_disabled (VStr (hash n)) false
                    (stored_problem hash payload n))).
  - cbn [head]. by rewrite Hstored.
  - rewrite Hstored. split.
    + rewrite lookup_insert_ne by done. apply lookup_insert_eq.
    + rewrite lookup_insert_ne by done. rewrite lookup_insert_ne by done.
      apply lookup_insert_eq.
Qed.

(** Every writer of the problem store keeps its problems well shaped. *)
Lemma insert_problem_keeps_shape (payload : doc) (w w' : world)
    (r : result string) :
  insert_problem hash payload w = (r, w') →
  (∀ q, q ∈ problems w → stored_shape q = true) →
  ∀ q, q ∈ problems w' → stored_shape q = true.
Proof.
  intros Hins Hwf.
  destruct (validate problem_schema payload) as [[]|e] eqn:Hval.
  - destruct (validate_problem_name _ Hval) as [n Hname].
    rewrite (insert_problem_valid payload n w Hval Hname) in Hins.
    repeat case_bool_decide; injection Hins as <- <-; try done.
    intros q. cbn [set_problems problems]. rewrite elem_of_app.
    intros [Hq|Hq]; [by apply Hwf|].
    apply list_elem_of_singleton in Hq as ->.
    unfold stored_shape, has_key, stored_problem.
    rewrite lookup_insert_ne by done. rewrite !lookup_insert_eq. done.
  - unfold insert_problem, mbind, M_bind, lift in Hins. rewrite Hval in Hins.
    by injection Hins as <- <-.
Qed.

Lemma remove_problem_keeps_shape (pid : value) (w w' : world)
    (r : result doc) :
  remove_problem pid w = (r, w') →
  (∀ q, q ∈ problems w → stored_shape q = true) →
  ∀ q, q ∈ problems w' → stored_shape q = true.
Proof.
  unfold remove_problem, mbind, M_bind, read, modify, mret, M_ret.
  intros Hrem Hwf.
  destruct (get_problem_no_tid pid VNone false w);
    injection Hrem as <- <-; [|done].
  intros q. cbn [set_problems problems]. unfold Mongo.remove.
  rewrite list_elem_of_In, List.filter_In, <- list_elem_of_In.
  intros [Hq _]. by apply Hwf.
Qed.

(** [update_problem] never gets to its write: the problem it has looked up
    holds a [pid], and the schema it validates the merged problem against
    refuses any [pid]. *)
Lemma update_problem_leaves_store (pid : value) (updated : doc)
    (w w' : world) (r : result doc) :
  update_problem pid updated w = (r, w') →
  w' = w ∧ ∃ e, r = Raise e.
Proof.
  unfold update_problem, mbind, M_bind, read, lift, modify, mret, M_ret.
  cbv beta.
  destruct (get_problem_no_tid pid VNone false w) as [problem|e] eqn:Hp.
  2:{ intros [= <- <-]. eauto. }
  destruct (validate problem_schema (updated ∪ problem)) as [[]|e] eqn:Hval.
  2:{ intros [= <- <-]. eauto. }
  exfalso. apply validate_problem_no_pid in Hval.
  apply lookup_union_None in Hval as [_ Hnone].
  destruct (decide (pid = VNone)) as [->|Hpid]; [done|].
  apply get_problem_no_tid_Ok in Hp as (_ & _ & Hsome & _).
  rewrite (Hsome Hpid) in Hnone. done.
Qed.

End Lifecycle.


(** C9, at its failing input.  The store holds one problem named A, which
    is disabled.  Inserting a payload with the same name (hence the same
    pid) is not rejected: [insert_problem] returns the pid and the store
    now holds two problems with this name and this pid. *)
Theorem insert_problem_next_to_disabled_twin :
  insert_problem Fixture.hash (Fixture.payload "A" "web" 0 ∅)
      Fixture.disabled_A =
    (Ok "#A",
     World [Fixture.stored "A" "web" 0 ∅ true;
            Fixture.stored "A" "web" 0 ∅ false] [] []).
Proof. vm_compute. reflexivity. Qed.

(** C8 as stated fails for a payload that asks for a disabled problem: the
    insert is accepted, and [get_problem] with the returned pid raises. *)
Lemma insert_disabled_then_get_problem_raises :
  insert_problem Fixture.hash Fixture.payload_disabled_C Fixture.empty_store
    = (Ok "#C",
       World [<["disabled" := VBool true]>
                (Fixture.stored "C" "web" 0 ∅ false)] [] [])
  ∧ get_problem (VStr "#C") VNone VNone false
      (World [<["disabled" := VBool true]>
                (Fixture.stored "C" "web" 0 ∅ false)] [] [])
    = Raise not_found.
Proof. split; vm_compute; reflexivity. Qed.

(** The statement above, for a payload named C with weightmap [{A: 3}]. *)
Lemma insert_problem_then_get_problem_witness :
  ∃ (n : string) (m wm : gmap string Z),
    Fixture.payload "C" "web" 0 {["A" := 3]} !! "name" = Some (VStr n)
    ∧ "#C" = Fixture.hash n
    ∧ (Fixture.payload "C" "web" 0 {["A" := 3]} !! "weightmap"
         = Some (VDict m)
       ∨ Fixture.payload "C" "web" 0 {["A" := 3]} !! "weightmap" = None
         ∧ m = ∅)
    ∧ get_problem (VStr "#C") VNone VNone false
        (World [Fixture.stored "C" "web" 0 {["#A" := 3]} false] [] []) =
        Ok (<["weightmap" := VDict wm]>
            (<["pid" := VStr "#C"]>
            (<["disabled" := VBool false]>
               (Fixture.payload "C" "web" 0 {["A" := 3]}))))
    ∧ ((∀ a b, is_Some (m !! a) → is_Some (m !! b) →
               Fixture.hash a = Fixture.hash b → a = b) →
       ∀ k x, wm !! k = Some x ↔
              ∃ a, Fixture.hash a = k ∧ m !! a = Some x).
Proof.
  apply (insert_problem_then_get_problem Fixture.hash
           (Fixture.payload "C" "web" 0 {["A" := 3]}) Fixture.empty_store).
  - vm_compute. reflexivity.
  - vm_compute. discriminate.
Defined.

(** ** Submissions and the solved set *)

Lemma get_submissions_of_team (tid : value) (w : world) :
  tid ≠ VNone →
  get_submissions VNone VNone tid VNone w =
    Mongo.find (<["tid" := tid]> ∅) (submissions w).
Proof.
  intros Ht. unfold get_submissions, add_filter.
  rewrite (decide_True (P := VNone = VNone)) by done.
  by rewrite (decide_False (P := tid = VNone)) by done.
Qed.

Lemma elem_of_get_submissions_of_team (tid : value) (w : world) (s : doc) :
  tid ≠ VNone →
  s ∈ get_submissions VNone VNone tid VNone w ↔
  s ∈ submissions w ∧ s !! "tid" = Some tid.
Proof.
  intros Ht. rewrite get_submissions_of_team, elem_of_find by done.
  rewrite matches_spec. split; intros [Hin Hm]; (split; [done|]).
  - apply Hm. apply lookup_insert_eq.
  - intros k v. rewrite lookup_insert. case_decide; [|by rewrite lookup_empty].
    intros [= <-]. by subst.
Qed.

(** The submissions of a team after one more of its submissions is
    stored. *)
Lemma get_submissions_of_team_snoc (tid : value) (w : world) (c : list doc)
    (s : doc) :
  tid ≠ VNone →
  submissions w = c ++ [s] →
  s !! "tid" = Some tid →
  get_submissions VNone VNone tid VNone w = Mongo.find (<["tid" := tid]> ∅) c ++ [s].
Proof.
  intros Ht Hw Hs. rewrite get_submissions_of_team, Hw, find_app by done.
  f_equal. unfold Mongo.find. cbn [List.filter].
  assert (Mongo.matches (<["tid" := tid]> ∅) s = true) as ->; [|done].
  apply matches_spec. intros k v. rewrite lookup_insert.
  case_decide; [|by rewrite lookup_empty]. intros [= <-]. by subst.
Qed.

Lemma submission_record_fields (uid tid : value) (now : Z)
    (pid ip key category : value) (c : bool) :
  let s := submission_record uid tid now pid ip key category c in
  s !! "tid" = Some tid ∧ s !! "pid" = Some pid ∧ s !! "key" = Some key
  ∧ s !! "correct" = Some (VBool c).
Proof.
  unfold submission_record. cbv zeta. split; [|split; [|split]].
  - do 6 (rewrite lookup_insert_ne by done). apply lookup_insert_eq.
  - do 4 (rewrite lookup_insert_ne by done). apply lookup_insert_eq.
  - do 2 (rewrite lookup_insert_ne by done). apply lookup_insert_eq.
  - apply lookup_insert_eq.
Qed.



Lemma solved_pid_of_Ok (sub : doc) (l : list value) :
  solved_pid_of sub = Ok l →
  ∀ v, v ∈ l ↔ sub !! "pid" = Some v
              ∧ ∃ c, sub !! "correct" = Some c ∧ py_eq c (VBool true) = true.
Proof.
  unfold solved_pid_of. intros H v.
  apply result_bind_Ok in H as (c & Hc & H). apply doc_get_Ok in Hc.
  destruct (py_eq c (VBool true)) eqn:Hpy.
  - apply result_bind_Ok in H as (p & Hp & [= <-]). apply doc_get_Ok in Hp.
    rewrite list_elem_of_singleton. split.
    + intros ->. eauto.
    + intros [Hv _]. congruence.
  - injection H as <-. split; [by intros ?%elem_of_nil|].
    intros (_ & c' & Hc' & Hpy'). congruence.
Qed.

(** A pid is in the solved set of a team exactly when the team has a
    stored submission for it that is marked correct. *)
Lemma elem_of_get_solved_pids (tid : value) (w : world) (solved : list value)
    (v : value) :
  tid ≠ VNone →
  get_solved_pids tid VNone w = Ok solved →
  v ∈ solved ↔
  ∃ s, s ∈ submissions w ∧ s !! "tid" = Some tid ∧ s !! "pid" = Some v
       ∧ ∃ c, s !! "correct" = Some c ∧ py_eq c (VBool true) = true.
Proof.
  intros Ht H. unfold get_solved_pids in H.
  apply result_fmap_Ok in H as (ls & Hls & ->). apply mapM_Ok in Hls.
  rewrite elem_of_concat. split.
  - intros (l & Hl & Hv).
    destruct (Forall2_elem_of_r _ _ _ _ Hls Hl) as (s & Hs & Hsl).
    apply elem_of_get_submissions_of_team in Hs as [Hs Htid]; [|done].
    destruct (proj1 (solved_pid_of_Ok _ _ Hsl v) Hv) as [Hp Hc].
    by exists s.
  - intros (s & Hs & Htid & Hp & Hc).
    assert (s ∈ get_submissions VNone VNone tid VNone w) as Hin
      by by apply elem_of_get_submissions_of_team.
    destruct (Forall2_elem_of_l _ _ _ _ Hls Hin) as (l & Hl & Hsl).
    exists l. split; [done|]. by apply (solved_pid_of_Ok _ _ Hsl).
Qed.

(** ** Unlocking *)

Lemma get_unlocked_pids_Ok (tid category : value) (w : world)
    (unlocked : list value) :
  get_unlocked_pids tid category w = Ok unlocked →
  ∃ pids solved steps,
    get_solved_pids tid category w = Ok pids
    ∧ mapM (λ pid, get_problem_no_tid pid VNone false w) pids = Ok solved
    ∧ mapM (unlock_step solved) (get_all_problems VNone false w) = Ok steps
    ∧ unlocked = concat steps.
Proof.
  unfold get_unlocked_pids, get_solved_problems. intros H.
  apply result_bind_Ok in H as (solved & Hs & H).
  apply result_bind_Ok in Hs as (pids & Hpids & Hs).
  apply result_fmap_Ok in H as (steps & Hsteps & ->).
  by exists pids, solved, steps.
Qed.



Lemma unlock_step_elem_of (solved : list doc) (q : doc) (l : list value)
    (v : value) :
  unlock_step solved q = Ok l → v ∈ l → q !! "pid" = Some v.
Proof.
  unfold unlock_step. intros H Hv.
  destruct (_ || _).
  - apply result_bind_Ok in H as (p & Hp & [= <-]).
    apply list_elem_of_singleton in Hv as ->. by apply doc_get_Ok.
  - apply result_bind_Ok in H as (ws & _ & H).
    apply result_bind_Ok in H as (t & _ & H).
    apply result_bind_Ok in H as (b & _ & H).
    destruct b; [|injection H as <-; by apply elem_of_nil in Hv].
    apply result_bind_Ok in H as (p & Hp & [= <-]).
    apply list_elem_of_singleton in Hv as ->. by apply doc_get_Ok.
Qed.



(** The weight sum of a problem whose weightmap is [{A: wt}]: [wt] for
    each correct submission of the team for [A]. *)
Lemma weightsum_single (w : world) (problem : doc) (A : string) (wt : Z)
    (solved : list value) (found : list doc) (weights : list Z) :
  problem !! "weightmap" = Some (VDict {[A := wt]}) →
  Forall2 (λ v p, get_problem_no_tid v VNone false w = Ok p) solved found →
  Forall2 (λ p x, weight_of problem p = Ok x) found weights →
  sum weights = wt * Z.of_nat (count_occ value_eq_dec solved (VStr A)).
Proof.
  intros Hwm Hfound. revert weights.
  induction Hfound as [|v p solved found Hp _ IH]; intros weights Hws.
  - inversion Hws. cbn. lia.
  - inversion Hws as [|? x ? weights' Hx Hws']; subst.
    cbn [sum foldr count_occ]. fold (sum weights'). rewrite (IH _ Hws').
    assert (p !! "pid" = Some v ∧ v ≠ VNone) as [Hpid Hv].
    { destruct (decide (v = VNone)) as [->|Hv]; [done|].
      by apply get_problem_no_tid_Ok in Hp as (_ & _ & Hpid & _); auto. }
    unfold weight_of, doc_get in Hx. rewrite Hwm, Hpid in Hx.
    cbn [mbind result_bind] in Hx.
    destruct (value_eq_dec v (VStr A)) as [->|Hne].
    + rewrite lookup_singleton_eq in Hx. injection Hx as <-. cbn [default].
      lia.
    + destruct v as [| | |s| | |]; try naive_solver lia.
      rewrite lookup_singleton_ne in Hx by congruence.
      injection Hx as <-. cbn [default]. lia.
Qed.

(** C5, amended.  An enabled stored problem has threshold [T] and
    weightmap [{A: wt}], no other enabled problem has its pid, and the
    unlocked problems of the team can be computed.  Then the problem is
    unlocked for the team exactly when [T <= n * wt], where [n] counts the
    correct submissions of the team for [A].  So with a positive threshold
    and at most one correct submission for [A], it is unlocked exactly
    when the solved set holds [A] and [wt >= T]: a weight equal to the
    threshold unlocks, a weight one below does not.  With a threshold of 0
    or less it is unlocked even when [A] is not solved. *)
Theorem unlocked_single_prerequisite (tid : value) (w : world) (problem : doc)
    (pid A : string) (T wt : Z) (solved unlocked : list value) :
  problem ∈ problems w →
  problem !! "disabled" = Some (VBool false) →
  problem !! "pid" = Some (VStr pid) →
  problem !! "threshold" = Some (VInt T) →
  problem !! "weightmap" = Some (VDict {[A := wt]}) →
  (∀ q, q ∈ problems w → q !! "disabled" = Some (VBool false) →
        q !! "pid" = Some (VStr pid) → q = problem) →
  get_solved_pids tid VNone w = Ok solved →
  get_unlocked_pids tid VNone w = Ok unlocked →
  let n := Z.of_nat (count_occ value_eq_dec solved (VStr A)) in
  (VStr pid ∈ unlocked ↔ T ≤ n * wt)
  ∧ (0 < T → n ≤ 1 →
     (VStr pid ∈ unlocked ↔ VStr A ∈ solved ∧ T ≤ wt))
  ∧ (T ≤ 0 → VStr A ∉ solved → VStr pid ∈ unlocked).
Proof.
  intros Hin Hdis Hpid Hthr Hwm Huniq Hsolved Hu n.
  destruct (get_unlocked_pids_Ok _ _ _ _ Hu)
    as (pids & found & steps & Hpids & Hfound & Hsteps & ->).
  rewrite Hsolved in Hpids. injection Hpids as <-.
  apply mapM_Ok in Hfound. apply mapM_Ok in Hsteps.
  assert (problem ∈ get_all_problems VNone false w) as Hall
    by by apply elem_of_get_all_problems.
  destruct (Forall2_elem_of_l _ _ _ _ Hsteps Hall) as (l & Hl & Hstep).
  assert (VStr pid ∈ concat steps ↔ VStr pid ∈ l) as ->.
  { rewrite elem_of_concat. split; [|by exists l].
    intros (l' & Hl' & Hv).
    destruct (Forall2_elem_of_r _ _ _ _ Hsteps Hl') as (q & Hq & Hqstep).
    apply elem_of_get_all_problems in Hq as [Hq Hqd].
    pose proof (unlock_step_elem_of _ _ _ _ Hqstep Hv) as Hqpid.
    rewrite (Huniq q Hq Hqd Hqpid) in Hqstep. congruence. }
  assert (VStr pid ∈ l ↔ T ≤ n * wt) as Hiff.
  { unfold unlock_step, has_key, doc_get in Hstep.
    rewrite Hwm, Hthr, Hpid in Hstep. cbn [negb orb] in Hstep.
    apply result_bind_Ok in Hstep as (weights & Hws & Hstep).
    apply mapM_Ok in Hws.
    rewrite (weightsum_single w problem A wt solved found weights
               Hwm Hfound Hws) in Hstep.
    fold n in Hstep. cbn [mbind result_bind py_ge] in Hstep.
    destruct (Z.leb_spec T (wt * n)) as [Hle|Hlt];
      injection Hstep as <-.
    - rewrite list_elem_of_singleton. split; [lia | done].
    - split; [by intros ?%elem_of_nil | lia]. }
  assert (VStr A ∈ solved ↔ 0 < n) as Hcount.
  { unfold n. rewrite list_elem_of_In.
    rewrite (count_occ_In value_eq_dec). lia. }
  assert (0 ≤ n) as Hn0 by (unfold n; lia).
  clearbody n.
  split; [done|]. split.
  - intros HT Hn. rewrite Hiff, Hcount.
    assert (n = 0 ∨ n = 1) as [-> | ->] by lia; lia.
  - intros HT HA. apply Hiff. rewrite Hcount in HA.
    assert (n = 0) as -> by lia. lia.
Qed.

(** The statement above, for problem B (threshold 5, weightmap [{A: 5}])
    and a team that has solved A. *)
Lemma unlocked_single_prerequisite_witness :
  let n := Z.of_nat (count_occ value_eq_dec [VStr "#A"] (VStr "#A")) in
  (VStr "#B" ∈ [VStr "#A"; VStr "#B"] ↔ 5 ≤ n * 5)
  ∧ (0 < 5 → n ≤ 1 →
     (VStr "#B" ∈ [VStr "#A"; VStr "#B"] ↔ VStr "#A" ∈ [VStr "#A"] ∧ 5 ≤ 5))
  ∧ (5 ≤ 0 → VStr "#A" ∉ [VStr "#A"] → VStr "#B" ∈ [VStr "#A"; VStr "#B"]).
Proof.
  apply (unlocked_single_prerequisite (VStr "t1") Fixture.solved_A
           Fixture.problem_B "#B" "#A" 5 5).
  - right. left.
  - vm_compute. reflexivity.
  - vm_compute. reflexivity.
  - vm_compute. reflexivity.
  - vm_compute. reflexivity.
  - intros q Hq _ Hpid.
    change (problems Fixture.solved_A)
      with [Fixture.problem_A; Fixture.problem_B] in Hq.
    rewrite !elem_of_cons in Hq.
    destruct Hq as [->|[->|Hq]]; [|done|by apply elem_of_nil in Hq].
    vm_compute in Hpid. discriminate Hpid.
  - vm_compute. reflexivity.
  - vm_compute. reflexivity.
Defined.

(** C5 as stated fails for a threshold of 0: problem Z has threshold 0 and
    weightmap [{A: 5}], team [t1] has solved nothing, and Z is unlocked. *)
Lemma threshold_zero_unlocked_without_prerequisite :
  Fixture.problem_Z !! "threshold" = Some (VInt 0)
  ∧ Fixture.problem_Z !! "weightmap" = Some (VDict {["#A" := 5]})
  ∧ get_solved_pids (VStr "t1") VNone Fixture.threshold_zero = Ok []
  ∧ get_unlocked_pids (VStr "t1") VNone Fixture.threshold_zero
    = Ok [VStr "#A"; VStr "#Z"].
Proof. repeat split; vm_compute; reflexivity. Qed.

(** C3.  The category argument does restrict the solved side.  Team [t1]
    has solved A (category web), which gives B its weight of 5.  Without a
    category B is unlocked; with [category="crypto"] the solved set is
    empty, the weight sum of B is 0 and B is not unlocked, while A, a web
    problem, is still returned. *)
Theorem get_unlocked_pids_category_restricts_solved :
  get_unlocked_pids (VStr "t1") VNone Fixture.solved_A
    = Ok [VStr "#A"; VStr "#B"]
  ∧ get_unlocked_pids (VStr "t1") (VStr "crypto") Fixture.solved_A
    = Ok [VStr "#A"]
  ∧ get_solved_pids (VStr "t1") VNone Fixture.solved_A = Ok [VStr "#A"]
  ∧ get_solved_pids (VStr "t1") (VStr "crypto") Fixture.solved_A = Ok [].
Proof. repeat split; vm_compute; reflexivity. Qed.

(** ** What the reading functions can raise *)






Lemma py_ge_Raise (weightsum : Z) (threshold : value) (e : exn) :
  py_ge weightsum threshold = Raise e → e = TypeError.
Proof. destruct threshold; cbn [py_ge]; congruence. Qed.




(** ** Grading and the submission pipeline *)

Section Pipeline.

Variable load_grader : string → option (value → value → bool * string).
Variable get_user : value → option doc.


Lemma grade_problem_Ok_inv (pid key uid : value) (w w' : world)
    (r : grade_result) :
  grade_problem load_grader pid key uid w = (Ok r, w') →
  ∃ problem path grade score,
    get_problem_no_tid pid VNone false w = Ok problem
    ∧ problem !! "grader" = Some (VStr path)
    ∧ load_grader path = Some grade
    ∧ problem !! "score" = Some score
    ∧ r = GradeResult (grade uid key).1 score (grade uid key).2
    ∧ w' = log_call (GraderCall path uid key) w.
Proof.
  unfold grade_problem, mbind, M_bind, read, lift, modify, raise, mret, M_ret.
  cbv beta.
  destruct (get_problem_no_tid pid VNone false w) as [problem|e] eqn:Hp;
    [|done].
  unfold doc_get.
  destruct (problem !! "grader") as [grader|] eqn:Hg; [|done].
  destruct grader as [| | |path| | |]; try done.
  destruct (load_grader path) as [grade|] eqn:Hl.
  - destruct (grade uid key) as [c msg] eqn:Hgr.
    destruct (problem !! "score") as [score|] eqn:Hs; [|done].
    intros [= <- <-]. exists problem, path, grade, score.
    by rewrite Hgr.
  - rewrite Hp. by destruct (problem !! "name").
Qed.


(** What a successful [submit_key] has checked and done. *)
Lemma submit_key_Ok (tid pid key uid ip : value) (now : Z) (w w1 : world)
    (r : grade_result) :
  submit_key load_grader get_user tid pid key uid ip now w = (Ok r, w1) →
  ∃ (t p k : string) (unlocked solved : list value) (user : doc)
    (uid' : value) (path : string) (problem : doc) (category : value)
    (tried : list (value * value)),
    (tid = VStr t ∧ pid = VStr p ∧ key = VStr k)
    ∧ ((String.length t ≤ 100)%nat ∧ (String.length p ≤ 100)%nat
       ∧ (String.length k ≤ 100)%nat)
    ∧ (get_unlocked_pids tid VNone w = Ok unlocked
       ∧ py_in pid unlocked = true)
    ∧ (get_solved_pids tid VNone w = Ok solved ∧ py_in pid solved = false)
    ∧ (get_user uid = Some user ∧ user !! "uid" = Some uid')
    ∧ grade_problem load_grader pid key uid' w =
        (Ok r, log_call (GraderCall path uid' key) w)
    ∧ (get_problem_no_tid pid VNone false w = Ok problem
       ∧ problem !! "category" = Some category)
    ∧ (mapM key_pid_of (get_submissions VNone VNone tid VNone w) = Ok tried
       ∧ py_in_pairs (key, pid) tried = false)
    ∧ w1 = set_submissions
             (submissions w ++
                [submission_record uid' tid now pid ip key category
                   (correct r)])
             (log_call (GraderCall path uid' key) w).
Proof.
  unfold submit_key, mbind, M_bind, read, lift, raise, modify, mret, M_ret.
  cbv beta.
  destruct (validate submission_schema _) as [[]|e] eqn:Hval; [|done].
  apply validate_submission_strings in Hval as (Ht & Hp & Hk).
  apply is_str_max_inv in Ht as (t & -> & Ht).
  apply is_str_max_inv in Hp as (p & -> & Hp).
  apply is_str_max_inv in Hk as (k & -> & Hk).
  destruct (get_unlocked_pids _ _ w) as [unlocked|e] eqn:Hu; [|done].
  destruct (py_in (VStr p) unlocked) eqn:Hpu; [|done]. cbn [negb].
  destruct (get_solved_pids _ _ w) as [solved|e] eqn:Hs; [|done].
  destruct (py_in (VStr p) solved) eqn:Hps; [done|].
  destruct (get_user uid) as [user|] eqn:Huser; [|done].
  destruct (doc_get user "uid") as [uid'|e] eqn:Huid; [|done].
  apply doc_get_Ok in Huid.
  destruct (grade_problem load_grader (VStr p) (VStr k) uid' w)
    as [[r'|e] wg] eqn:Hgrade; [|done].
  destruct (grade_problem_Ok_inv _ _ _ _ _ _ Hgrade)
    as (pr & path & grade & score & _ & _ & _ & _ & _ & ->).
  destruct (get_problem_no_tid _ _ _ _) as [problem|e] eqn:Hpr; [|done].
  destruct (doc_get problem "category") as [category|e] eqn:Hcat; [|done].
  apply doc_get_Ok in Hcat.
  destruct (mapM key_pid_of _) as [tried|e] eqn:Htried; [|done].
  destruct (py_in_pairs _ tried) eqn:Hdup; [done|].
  intros [= <- <-].
  exists t, p, k, unlocked, solved, user, uid', path, problem, category, tried.
  repeat split; done.
Qed.


(** C7, amended.  A team has a correct submission for the problem.  A new
    attempt on it whose tid, pid and key are strings of at most 100
    characters, made while the unlocked problems of the team can be
    computed, is rejected, whatever its key: as a submission to a locked
    problem when the problem is not unlocked for the team any more, and as
    already solved otherwise.  Nothing is stored and no grader is called. *)
Theorem submit_key_solved_rejected (tid pid key : string) (uid ip : value)
    (now : Z) (w : world) (unlocked : list value) (s : doc) :
  (String.length tid ≤ 100)%nat →
  (String.length pid ≤ 100)%nat →
  (String.length key ≤ 100)%nat →
  get_unlocked_pids (VStr tid) VNone w = Ok unlocked →
  s ∈ submissions w →
  s !! "tid" = Some (VStr tid) →
  s !! "pid" = Some (VStr pid) →
  s !! "correct" = Some (VBool true) →
  ∃ e, submit_key load_grader get_user (VStr tid) (VStr pid) (VStr key)
         uid ip now w = (Raise e, w)
       ∧ (e = locked ∨ e = already_solved)
       ∧ is_conflict e = true.
Proof.
  intros Ht Hp Hk Hu Hs Hstid Hspid Hsc.
  destruct (get_unlocked_pids_Ok _ _ _ _ Hu) as (pids & _ & _ & Hpids & _).
  assert (VStr pid ∈ pids) as Hin.
  { apply (elem_of_get_solved_pids (VStr tid) w pids); [done..|].
    exists s. repeat (split; [done|]). by exists (VBool true). }
  unfold submit_key, mbind, M_bind, read, lift, raise, modify, mret, M_ret.
  cbv beta.
  rewrite (validate_submission_shape tid pid key Ht Hp Hk), Hu.
  destruct (py_in (VStr pid) unlocked).
  - cbn [negb]. rewrite Hpids.
    rewrite (proj2 (py_in_str pid pids) Hin).
    exists already_solved. split; [done|]. split; [by right|].
    vm_compute. reflexivity.
  - cbn [negb]. exists locked. split; [done|]. split; [by left|].
    vm_compute. reflexivity.
Qed.



End Pipeline.

(** ** The pipeline at work *)



(** C7 as stated fails for a key of 101 characters: team [t1] has solved
    A, and the new attempt on A is rejected by the schema, which is not a
    conflict error. *)
Lemma solved_pid_long_key_is_validation_error :
  get_solved_pids (VStr "t1") VNone Fixture.solved_A = Ok [VStr "#A"]
  ∧ submit_key Fixture.load_grader Fixture.get_user
      (VStr "t1") (VStr "#A") (VStr Fixture.long_key) (VStr "u1") VNone 1
      Fixture.solved_A
    = (Raise (ValidationError "This does not look like a valid key."),
       Fixture.solved_A)
  ∧ is_conflict (ValidationError "This does not look like a valid key.")
    = false.
Proof. repeat split; vm_compute; reflexivity. Qed.

(** The statement above, for another key on the solved problem A. *)
Lemma submit_key_solved_rejected_witness :
  ∃ e, submit_key Fixture.load_grader Fixture.get_user
         (VStr "t1") (VStr "#A") (VStr "another") (VStr "u1") VNone 1
         Fixture.solved_A = (Raise e, Fixture.solved_A)
       ∧ (e = locked ∨ e = already_solved)
       ∧ is_conflict e = true.
Proof.
  apply (submit_key_solved_rejected Fixture.load_grader Fixture.get_user
           "t1" "#A" "another" (VStr "u1") VNone 1 Fixture.solved_A
           [VStr "#A"; VStr "#B"]
           (Fixture.submission "u1" "t1" "#A" "flag1" "web" true)).
  - vm_compute. lia.
  - vm_compute. lia.
  - vm_compute. lia.
  - vm_compute. reflexivity.
  - left.
  - vm_compute. reflexivity.
  - vm_compute. reflexivity.
  - vm_compute. reflexivity.
Defined.



(** * More properties of the module *)

(** ** Listing problems *)

Global Instance key_leb_total (field : string) :
  Total (λ a b : doc, Is_true (Mongo.key_leb (a !! field) (b !! field))).
Proof.
  intros a b. unfold Mongo.key_leb.
  destruct (a !! field) as [[]|], (b !! field) as [[]|];
    cbn [Mongo.key_rank]; rewrite ?Is_true_true, ?Z.leb_le; lia.
Qed.

(** X1.  [get_all_problems] returns exactly the stored problems whose
    [disabled] flag is [show_disabled] (and whose category is the one asked
    for, when one is), each as often as it is stored, in ascending order
    of score. *)
Theorem get_all_problems_sorted_selection (category : value)
    (show_disabled : bool) (w : world) :
  get_all_problems category show_disabled w ≡ₚ
    List.filter
      (λ q, bool_decide (q !! "disabled" = Some (VBool show_disabled)
                         ∧ (category = VNone
                            ∨ q !! "category" = Some category)))
      (problems w)
  ∧ Sorted (λ a b, Is_true (Mongo.key_leb (a !! "score") (b !! "score")))
      (get_all_problems category show_disabled w).
Proof.
  unfold get_all_problems, Mongo.sort_ascending. split.
  - rewrite merge_sort_Permutation. unfold Mongo.find.
    erewrite List.filter_ext; [reflexivity|].
    intros q. apply eq_true_iff_eq. rewrite matches_spec, bool_decide_eq_true.
    unfold add_filter. destruct (decide (category = VNone)) as [->|Hc].
    + split.
      * intros H. split; [|by left]. apply H. apply lookup_singleton_eq.
      * intros [Hd _] k v. rewrite lookup_singleton.
        case_decide; [|done]. intros [= <-]. by subst.
    + split.
      * intros H. split.
        -- apply H. rewrite lookup_insert_ne by done.
           apply lookup_singleton_eq.
        -- right. apply H. apply lookup_insert_eq.
      * intros [Hd [?|Hcat]] k v; [done|]. rewrite lookup_insert.
        case_decide; [intros [= <-]; by subst|].
        rewrite lookup_singleton. case_decide; [|done].
        intros [= <-]. by subst.
  - apply (Sorted_merge_sort _).
Qed.

(** ** Problem lifecycle *)

Lemma matches_pid (pid : value) (q : doc) :
  Mongo.matches {["pid" := pid]} q = bool_decide (q !! "pid" = Some pid).
Proof.
  apply eq_true_iff_eq. rewrite matches_spec, bool_decide_eq_true. split.
  - intros H. apply H. apply lookup_singleton_eq.
  - intros H k v. rewrite lookup_singleton. case_decide; [|done].
    intros [= <-]. by subst.
Qed.

Lemma stored_problem_fields (hash : string → string) (payload : doc)
    (n : string) :
  payload !! "name" = Some (VStr n) →
  stored_problem hash payload n !! "pid" = Some (VStr (hash n))
  ∧ stored_problem hash payload n !! "name" = Some (VStr n)
  ∧ stored_problem hash payload n !! "disabled"
    = Some (default (VBool false) (payload !! "disabled")).
Proof.
  intros Hn. unfold stored_problem. split; [|split].
  - rewrite lookup_insert_ne by done. apply lookup_insert_eq.
  - by do 3 (rewrite lookup_insert_ne by done).
  - do 2 (rewrite lookup_insert_ne by done). apply lookup_insert_eq.
Qed.

(** What an accepted insert has checked and done. *)
Lemma insert_problem_Ok_inv (hash : string → string) (payload : doc)
    (w w' : world) (pid : string) :
  insert_problem hash payload w = (Ok pid, w') →
  ∃ n, validate problem_schema payload = Ok ()
       ∧ payload !! "name" = Some (VStr n)
       ∧ pid = hash n
       ∧ get_problem_no_tid (VStr (hash n)) VNone false w = Raise not_found
       ∧ get_problem_no_tid VNone (VStr n) false w = Raise not_found
       ∧ w' = set_problems (problems w ++ [stored_problem hash payload n]) w.
Proof.
  intros Hins.
  pose proof (insert_problem_Ok_valid _ _ _ _ _ Hins) as Hval.
  destruct (validate_problem_name _ Hval) as [n Hname].
  rewrite (insert_problem_valid hash payload n w Hval Hname) in Hins.
  case_bool_decide as H1; [discriminate|].
  case_bool_decide as H2; [discriminate|].
  injection Hins as <- <-. exists n. repeat (split; [done|]). split; [|split].
  - destruct (get_problem_no_tid (VStr (hash n)) VNone false w) eqn:Hp.
    + exfalso. apply H1. by eexists.
    + unfold get_problem_no_tid, problem_match in Hp.
      rewrite decide_False in Hp by done. cbn [mbind result_bind] in Hp.
      by apply find_problem_Raise in Hp as [-> _].
  - destruct (get_problem_no_tid VNone (VStr n) false w) eqn:Hp.
    + exfalso. apply H2. by eexists.
    + unfold get_problem_no_tid, problem_match in Hp.
      rewrite decide_True in Hp by done. rewrite decide_False in Hp by done.
      cbn [mbind result_bind] in Hp.
      by apply find_problem_Raise in Hp as [-> _].
  - done.
Qed.

(** X2.  [update_problem] never writes, and so neither does
    [set_problem_disabled]: the call always raises and leaves the state as
    it is.  Either no enabled problem has the pid, or the merged problem is
    refused by the schema, because the problem that was looked up carries
    a [pid] and the schema accepts none. *)
Theorem update_problem_always_raises (pid : value) (updated : doc)
    (w : world) :
  ∃ e, update_problem pid updated w = (Raise e, w)
       ∧ (lookup_error e ∨ ∃ msg, e = ValidationError msg)
       ∧ ∀ disabled, ∃ e',
           set_problem_disabled pid disabled w = (Raise e', w).
Proof.
  assert (∀ upd, ∃ e, update_problem pid upd w = (Raise e, w)
                      ∧ (lookup_error e ∨ ∃ msg, e = ValidationError msg))
    as Hall.
  { intros upd.
    unfold update_problem, mbind, M_bind, read, lift, modify, mret, M_ret.
    cbv beta.
    destruct (get_problem_no_tid pid VNone false w) as [problem|e] eqn:Hp.
    2:{ exists e. split; [done|]. left.
        destruct (get_problem_no_tid_Raise _ _ _ _ _ Hp) as [-> | ->];
          cbn; auto. }
    destruct (validate problem_schema (upd ∪ problem)) as [[]|e] eqn:Hval.
    2:{ exists e. split; [done|]. right. by eapply validate_Raise. }
    exfalso. apply validate_problem_no_pid in Hval.
    apply lookup_union_None in Hval as [_ Hnone].
    destruct (decide (pid = VNone)) as [->|Hpid]; [done|].
    apply get_problem_no_tid_Ok in Hp as (_ & _ & Hsome & _).
    rewrite (Hsome Hpid) in Hnone. done. }
  destruct (Hall updated) as (e & He & Hkind). exists e.
  split; [done|]. split; [done|]. intros disabled.
  destruct (Hall {["disabled" := disabled]}) as (e' & He' & _). by exists e'.
Qed.

(** X3.  A successful [remove_problem] returns an enabled stored problem
    with the given pid and deletes every stored problem with that pid,
    disabled ones included; the other problems stay, in their order, and
    so do the submissions.  Afterwards no lookup by that pid finds
    anything. *)
Theorem remove_problem_deletes_every_twin (pid : value) (w w' : world)
    (p : doc) :
  remove_problem pid w = (Ok p, w') →
  (p ∈ problems w ∧ p !! "pid" = Some pid
   ∧ p !! "disabled" = Some (VBool false))
  ∧ problems w' =
      List.filter (λ q, negb (bool_decide (q !! "pid" = Some pid)))
        (problems w)
  ∧ submissions w' = submissions w
  ∧ ∀ show_disabled,
      get_problem pid VNone VNone show_disabled w' = Raise not_found.
Proof.
  unfold remove_problem, mbind, M_bind, read, modify, mret, M_ret. cbv beta.
  destruct (get_problem_no_tid pid VNone false w) as [q|e] eqn:Hp; [|done].
  intros [= <- <-].
  assert (pid ≠ VNone) as Hpid by by intros ->.
  apply get_problem_no_tid_Ok in Hp as (Hin & Hd & Hp & _).
  split; [by auto|].
  assert (Mongo.remove {["pid" := pid]} (problems w) =
          List.filter (λ q, negb (bool_decide (q !! "pid" = Some pid)))
            (problems w)) as Hrem.
  { unfold Mongo.remove. apply List.filter_ext. intros d.
    by rewrite matches_pid. }
  cbn [set_problems problems submissions]. split; [done|]. split; [done|].
  intros sd. rewrite get_problem_tid_None.
  apply get_problem_by_pid_hidden; [done|].
  cbn [set_problems problems]. rewrite Hrem. intros d Hd' Hdp.
  apply list_elem_of_In, List.filter_In in Hd' as [_ Hneg].
  by rewrite (bool_decide_eq_true_2 _ Hdp) in Hneg.
Qed.

Lemma remove_problem_deletes_every_twin_witness :
  (Fixture.problem_A ∈ problems Fixture.fresh_store
   ∧ Fixture.problem_A !! "pid" = Some (VStr "#A")
   ∧ Fixture.problem_A !! "disabled" = Some (VBool false))
  ∧ problems (set_problems [Fixture.problem_B] Fixture.fresh_store) =
      List.filter (λ q, negb (bool_decide (q !! "pid" = Some (VStr "#A"))))
        (problems Fixture.fresh_store)
  ∧ submissions (set_problems [Fixture.problem_B] Fixture.fresh_store)
    = submissions Fixture.fresh_store
  ∧ ∀ show_disabled,
      get_problem (VStr "#A") VNone VNone show_disabled
        (set_problems [Fixture.problem_B] Fixture.fresh_store)
      = Raise not_found.
Proof.
  apply (remove_problem_deletes_every_twin (VStr "#A") Fixture.fresh_store
           (set_problems [Fixture.problem_B] Fixture.fresh_store)
           Fixture.problem_A).
  vm_compute. reflexivity.
Defined.

Section MoreLifecycle.

Variable hash : string → string.


(** The record an accepted insert leaves, and how it is found. *)
Lemma insert_problem_stored (payload : doc) (w w' : world) (pid : string) :
  insert_problem hash payload w = (Ok pid, w') →
  payload !! "disabled" ≠ Some (VBool true) →
  ∃ n, payload !! "name" = Some (VStr n)
       ∧ pid = hash n
       ∧ w' = set_problems (problems w ++ [stored_problem hash payload n]) w
       ∧ get_problem_no_tid VNone (VStr n) false w'
         = Ok (stored_problem hash payload n)
       ∧ get_problem_no_tid (VStr pid) VNone false w'
         = Ok (stored_problem hash payload n).
Proof.
  intros Hins Hdis.
  destruct (insert_problem_Ok_inv _ _ _ _ _ Hins)
    as (n & Hval & Hname & -> & Hpid & Hnm & ->).
  destruct (stored_problem_fields hash payload n Hname) as (Hsp & Hsn & Hsd).
  assert (stored_problem hash payload n !! "disabled" = Some (VBool false))
    as Hsd'.
  { rewrite Hsd.
    by destruct (validate_problem_disabled _ Hval) as [->|[[] Hb]];
      [|done|rewrite Hb]. }
  exists n. do 3 (split; [done|]).
  unfold get_problem_no_tid, problem_match, find_problem in *.
  rewrite (decide_True (P := VNone = VNone)) in * by done.
  rewrite (decide_False (P := VStr n = VNone)) in * by done.
  rewrite (decide_False (P := VStr (hash n) = VNone)) in * by done.
  cbn [mbind result_bind] in *.
  cbn [set_problems problems]. unfold Mongo.find_one in *.
  rewrite !find_app.
  destruct (Mongo.find (<["pid" := _]> _) (problems w)) as [|? ?] eqn:E1;
    [|done].
  destruct (Mongo.find (<["name" := _]> _) (problems w)) as [|? ?] eqn:E2;
    [|done].
  cbn [app]. unfold Mongo.find. cbn [List.filter].
  rewrite (proj2 (matches_name_disabled (VStr n) false _) (conj Hsn Hsd')).
  rewrite (proj2 (matches_pid_disabled (VStr (hash n)) false _)
             (conj Hsp Hsd')).
  done.
Qed.

(** X5.  After an accepted insert of a payload that does not ask for a
    disabled problem, the problem is also found by its name, and it is the
    record [get_problem] finds by pid: the last problem of the store, which
    carries the name and the pid. *)
Theorem insert_problem_then_get_by_name (payload : doc) (w w' : world)
    (pid : string) :
  insert_problem hash payload w = (Ok pid, w') →
  payload !! "disabled" ≠ Some (VBool true) →
  ∃ n stored,
    payload !! "name" = Some (VStr n)
    ∧ get_problem VNone (VStr n) VNone false w' = Ok stored
    ∧ get_problem (VStr pid) VNone VNone false w' = Ok stored
    ∧ stored !! "name" = Some (VStr n)
    ∧ stored !! "pid" = Some (VStr pid)
    ∧ problems w' = problems w ++ [stored].
Proof.
  intros Hins Hdis.
  destruct (insert_problem_stored _ _ _ _ Hins Hdis)
    as (n & Hname & -> & -> & Hbyname & Hbypid).
  destruct (stored_problem_fields hash payload n Hname) as (Hsp & Hsn & _).
  exists n, (stored_problem hash payload n).
  by rewrite !get_problem_tid_None.
Qed.


Lemma insert_problem_Raise_state (payload : doc) (w w' : world) (e : exn) :
  insert_problem hash payload w = (Raise e, w') → w' = w.
Proof.
  destruct (validate problem_schema payload) as [[]|e'] eqn:Hval.
  - destruct (validate_problem_name _ Hval) as [n Hname].
    rewrite (insert_problem_valid hash payload n w Hval Hname).
    repeat case_bool_decide; by intros [= <- <-] || intros [=].
  - unfold insert_problem, mbind, M_bind, lift. rewrite Hval.
    by intros [= <- <-].
Qed.

Lemma insert_problem_Ok_state (payload : doc) (w w' : world) (pid : string) :
  insert_problem hash payload w = (Ok pid, w') →
  length (problems w') = S (length (problems w))
  ∧ submissions w' = submissions w.
Proof.
  intros Hins.
  destruct (insert_problem_Ok_inv _ _ _ _ _ Hins)
    as (n & _ & _ & _ & _ & _ & ->).
  cbn [set_problems problems submissions]. rewrite length_app.
  cbn [length]. split; [lia | done].
Qed.

Lemma mapM_insert_problem_Ok (l : list doc) (w w' : world)
    (pids : list string) :
  mapM (insert_problem hash) l w = (Ok pids, w') →
  length pids = length l
  ∧ length (problems w') = (length (problems w) + length l)%nat
  ∧ submissions w' = submissions w.
Proof.
  revert w pids. induction l as [|x l IH]; intros w pids; cbn [mapM].
  - intros [= <- <-]. cbn [length]. split; [done|]. split; [lia | done].
  - unfold mbind, M_bind at 1.
    destruct (insert_problem hash x w) as [[pid|e] w1] eqn:Hx; [|done].
    unfold mbind, M_bind at 1.
    destruct (mapM (insert_problem hash) l w1) as [[k|e] w2] eqn:Hl; [|done].
    intros [= <- <-].
    destruct (IH _ _ Hl) as (Hk & Hp & Hs).
    destruct (insert_problem_Ok_state _ _ _ _ Hx) as [Hp1 Hs1].
    cbn [length]. rewrite Hk, Hp, Hp1, Hs, Hs1. split; [done|].
    split; [lia | done].
Qed.

Lemma mapM_insert_problem_Raise (before after : list doc) (bad : doc)
    (w w1 : world) (pids : list string) (e : exn) :
  mapM (insert_problem hash) before w = (Ok pids, w1) →
  (insert_problem hash bad w1).1 = Raise e →
  mapM (insert_problem hash) (before ++ bad :: after) w = (Raise e, w1).
Proof.
  revert w pids. induction before as [|x l IH]; intros w pids;
    cbn [mapM app].
  - intros [= <- <-] Hbad. unfold mbind, M_bind at 1.
    destruct (insert_problem hash bad w) as [[pid|e'] w'] eqn:Hb;
      cbn [fst] in Hbad; [done|].
    injection Hbad as ->.
    by rewrite (insert_problem_Raise_state _ _ _ _ Hb).
  - unfold mbind, M_bind at 1.
    destruct (insert_problem hash x w) as [[pid|e'] w'] eqn:Hx; [|done].
    unfold mbind, M_bind at 1.
    destruct (mapM (insert_problem hash) l w') as [[k|e'] w2] eqn:Hl; [|done].
    intros [= <- <-] Hbad.
    unfold mbind, M_bind at 1. rewrite Hx.
    unfold mbind, M_bind at 1. by rewrite (IH _ _ Hl Hbad).
Qed.

Lemma insert_problem_from_json_list (l : list doc) (w : world) :
  insert_problem_from_json hash (BList l) w =
    match mapM (insert_problem hash) l w with
    | (Ok pids, w') => (Ok (inl pids), w')
    | (Raise e, w') => (Raise e, w')
    end.
Proof. reflexivity. Qed.

(** X7.  Importing a list of problems is not all-or-nothing: when the
    problems before a rejected one go in, the import raises the error of
    the rejected one, the problems before it stay stored, one record each,
    and those after it are not looked at. *)
Theorem insert_problem_from_json_keeps_earlier_inserts
    (before after : list doc) (bad : doc) (w w1 : world)
    (pids : list string) (e : exn) :
  insert_problem_from_json hash (BList before) w = (Ok (inl pids), w1) →
  (insert_problem hash bad w1).1 = Raise e →
  insert_problem_from_json hash (BList (before ++ bad :: after)) w
    = (Raise e, w1)
  ∧ length (problems w1) = (length (problems w) + length before)%nat
  ∧ length pids = length before.
Proof.
  rewrite !insert_problem_from_json_list.
  destruct (mapM (insert_problem hash) before w) as [[k|e'] w'] eqn:Hb;
    [|done].
  intros [= <- <-] Hbad.
  rewrite (mapM_insert_problem_Raise _ after _ _ _ _ _ Hb Hbad).
  destruct (mapM_insert_problem_Ok _ _ _ _ Hb) as (Hk & Hp & _).
  done.
Qed.

End MoreLifecycle.

(** The statement above, for a payload named C and an empty store. *)
Lemma insert_problem_then_get_by_name_witness :
  ∃ n stored,
    Fixture.payload "C" "web" 0 ∅ !! "name" = Some (VStr n)
    ∧ get_problem VNone (VStr n) VNone false
        (insert_problem Fixture.hash (Fixture.payload "C" "web" 0 ∅)
           Fixture.empty_store).2 = Ok stored
    ∧ get_problem (VStr "#C") VNone VNone false
        (insert_problem Fixture.hash (Fixture.payload "C" "web" 0 ∅)
           Fixture.empty_store).2 = Ok stored
    ∧ stored !! "name" = Some (VStr n)
    ∧ stored !! "pid" = Some (VStr "#C")
    ∧ problems (insert_problem Fixture.hash (Fixture.payload "C" "web" 0 ∅)
                  Fixture.empty_store).2
      = problems Fixture.empty_store ++ [stored].
Proof.
  apply (insert_problem_then_get_by_name Fixture.hash
           (Fixture.payload "C" "web" 0 ∅) Fixture.empty_store).
  - vm_compute. reflexivity.
  - vm_compute. discriminate.
Defined.


(** The statement above, for a list that holds the same problem twice. *)
Lemma insert_problem_from_json_keeps_earlier_inserts_witness :
  insert_problem_from_json Fixture.hash
    (BList ([Fixture.payload "C" "web" 0 ∅]
            ++ Fixture.payload "C" "web" 0 ∅ :: [Fixture.payload "D" "web" 0 ∅]))
    Fixture.empty_store
    = (Raise identical_pid,
       (insert_problem Fixture.hash (Fixture.payload "C" "web" 0 ∅)
          Fixture.empty_store).2)
  ∧ length (problems (insert_problem Fixture.hash
                        (Fixture.payload "C" "web" 0 ∅)
                        Fixture.empty_store).2)
    = (length (problems Fixture.empty_store)
       + length [Fixture.payload "C" "web" 0 ∅])%nat
  ∧ length ["#C"] = length [Fixture.payload "C" "web" 0 ∅].
Proof.
  apply (insert_problem_from_json_keeps_earlier_inserts Fixture.hash
           [Fixture.payload "C" "web" 0 ∅] [Fixture.payload "D" "web" 0 ∅]
           (Fixture.payload "C" "web" 0 ∅) Fixture.empty_store
           (insert_problem Fixture.hash (Fixture.payload "C" "web" 0 ∅)
              Fixture.empty_store).2 ["#C"] identical_pid).
  - vm_compute. reflexivity.
  - vm_compute. reflexivity.
Defined.

(** ** The errors of the reading functions *)

Lemma lookup_error_KeyError (k : string) : lookup_error (KeyError k).
Proof. exact I. Qed.

Lemma doc_get_lookup_error (d : doc) (k : string) (e : exn) :
  doc_get d k = Raise e → lookup_error e.
Proof. intros ->%doc_get_Raise. exact I. Qed.

Lemma get_problem_no_tid_lookup_error (pid name : value) (sd : bool)
    (w : world) (e : exn) :
  get_problem_no_tid pid name sd w = Raise e → lookup_error e.
Proof.
  intros H. destruct (get_problem_no_tid_Raise _ _ _ _ _ H) as [-> | ->];
    cbn; auto.
Qed.

Lemma solved_pid_of_lookup_error (sub : doc) (e : exn) :
  solved_pid_of sub = Raise e → lookup_error e.
Proof.
  unfold solved_pid_of. intros H.
  apply result_bind_Raise in H as [H|(c & _ & H)].
  - by eapply doc_get_lookup_error.
  - destruct (py_eq c (VBool true)); [|done].
    apply result_bind_Raise in H as [H|(p & _ & H)]; [|done].
    by eapply doc_get_lookup_error.
Qed.

Lemma get_solved_pids_lookup_error (tid category : value) (w : world)
    (e : exn) :
  get_solved_pids tid category w = Raise e → lookup_error e.
Proof.
  unfold get_solved_pids. intros H. apply result_fmap_Raise in H.
  apply mapM_Raise in H as (sub & _ & H).
  by eapply solved_pid_of_lookup_error.
Qed.

Lemma weight_of_lookup_error (problem p : doc) (e : exn) :
  weight_of problem p = Raise e → lookup_error e.
Proof.
  unfold weight_of. intros H.
  apply result_bind_Raise in H as [H|(wm & _ & H)].
  - by eapply doc_get_lookup_error.
  - destruct wm; try (injection H as <-; exact I).
    apply result_bind_Raise in H as [H|(pid & _ & H)].
    + by eapply doc_get_lookup_error.
    + destruct pid; try done; injection H as <-; exact I.
Qed.

Lemma unlock_step_lookup_error (solved : list doc) (problem : doc) (e : exn) :
  unlock_step solved problem = Raise e → lookup_error e.
Proof.
  unfold unlock_step. intros H.
  destruct (_ || _).
  - apply result_bind_Raise in H as [H|(pid & _ & H)]; [|done].
    by eapply doc_get_lookup_error.
  - apply result_bind_Raise in H as [H|(ws & _ & H)].
    { apply mapM_Raise in H as (p & _ & H). by eapply weight_of_lookup_error. }
    apply result_bind_Raise in H as [H|(t & _ & H)].
    { by eapply doc_get_lookup_error. }
    apply result_bind_Raise in H as [H|(b & _ & H)].
    { apply py_ge_Raise in H as ->. exact I. }
    destruct b; [|done].
    apply result_bind_Raise in H as [H|(pid & _ & H)]; [|done].
    by eapply doc_get_lookup_error.
Qed.

Lemma get_unlocked_pids_lookup_error (tid category : value) (w : world)
    (e : exn) :
  get_unlocked_pids tid category w = Raise e → lookup_error e.
Proof.
  unfold get_unlocked_pids, get_solved_problems. intros H.
  apply result_bind_Raise in H as [H|(solved & _ & H)].
  - apply result_bind_Raise in H as [H|(pids & _ & H)].
    + by eapply get_solved_pids_lookup_error.
    + apply mapM_Raise in H as (pid & _ & H).
      by eapply get_problem_no_tid_lookup_error.
  - apply result_fmap_Raise in H.
    apply mapM_Raise in H as (p & _ & H). by eapply unlock_step_lookup_error.
Qed.

Lemma key_pid_of_lookup_error (s : doc) (e : exn) :
  key_pid_of s = Raise e → lookup_error e.
Proof.
  unfold key_pid_of. intros H.
  apply result_bind_Raise in H as [H|(k & _ & H)].
  - by eapply doc_get_lookup_error.
  - apply result_bind_Raise in H as [H|(p & _ & H)]; [|done].
    by eapply doc_get_lookup_error.
Qed.

(** A lookup error is none of the rejections of the pipeline. *)
Lemma lookup_error_not_rejection (e : exn) :
  lookup_error e →
  e ≠ locked ∧ e ≠ already_solved ∧ e ≠ already_tried ∧ e ≠ no_such_user
  ∧ ∀ msg, e ≠ ValidationError msg ∧ e ≠ WebException msg.
Proof.
  destruct e; cbn; try done; intros [H|H]; try discriminate H;
    injection H as ->; repeat split; done.
Qed.

Lemma mapM_Raise_elem {A B} (f : A → result B) (l : list A) (x : A)
    (e : exn) :
  x ∈ l → f x = Raise e → ∃ e', mapM f l = Raise e'.
Proof.
  intros Hx Hfx. destruct (mapM f l) as [k|e'] eqn:Hl; [|by eexists].
  apply mapM_Ok in Hl.
  destruct (Forall2_elem_of_l _ _ _ _ Hl Hx) as (y & _ & Hy). congruence.
Qed.

(** ** More on grading and submitting *)

Section MorePipeline.

Variable load_grader : string → option (value → value → bool * string).
Variable get_user : value → option doc.

(** How [grade_problem] can raise: before any grader is called, with a
    lookup error or because the grader script is missing; or after the
    call, when the problem holds no score. *)
Lemma grade_problem_Raise (pid key uid : value) (w w' : world) (e : exn) :
  grade_problem load_grader pid key uid w = (Raise e, w') →
  (w' = w
   ∧ (lookup_error e
      ∨ ∃ problem path name,
          get_problem_no_tid pid VNone false w = Ok problem
          ∧ problem !! "grader" = Some (VStr path)
          ∧ load_grader path = None
          ∧ problem !! "name" = Some name
          ∧ e = WebException
                  ("Problem grader for " +:+ py_str name +:+ " is offline.")))
  ∨ (∃ path, w' = log_call (GraderCall path uid key) w
             ∧ e = KeyError "score").
Proof.
  unfold grade_problem, mbind, M_bind, read, lift, modify, raise, mret, M_ret.
  cbv beta.
  destruct (get_problem_no_tid pid VNone false w) as [problem|e'] eqn:Hp.
  2:{ intros [= <- <-]. left. split; [done|]. left.
      by eapply get_problem_no_tid_lookup_error. }
  unfold doc_get.
  destruct (problem !! "grader") as [grader|] eqn:Hg.
  2:{ intros [= <- <-]. left. split; [done|]. left. exact I. }
  destruct grader as [| | |path| | |];
    try (intros [= <- <-]; left; split; [done|]; left; exact I).
  destruct (load_grader path) as [grade|] eqn:Hl.
  - destruct (grade uid key) as [c msg].
    destruct (problem !! "score") as [score|]; [done|].
    intros [= <- <-]. right. by exists path.
  - rewrite Hp. destruct (problem !! "name") as [name|] eqn:Hn.
    + intros [= <- <-]. left. split; [done|]. right.
      by exists problem, path, name.
    + intros [= <- <-]. left. split; [done|]. left. exact I.
Qed.

(** X8.  [grade_problem] stores nothing: the problems and the submissions
    are as before, whatever it returns.  When it returns, an enabled
    problem has the pid, its grader script was called once with the uid
    and the key, the verdict and message are the script's, and the points
    are the stored score of the problem.  When the script of the problem
    is missing, the call raises before any grader is called, so a missing
    script is never taken for a wrong answer. *)
Theorem grade_problem_only_grades (pid key uid : value) (w : world) :
  ∃ r w',
    grade_problem load_grader pid key uid w = (r, w')
    ∧ problems w' = problems w
    ∧ submissions w' = submissions w
    ∧ (∀ res, r = Ok res →
         ∃ problem path grade,
           get_problem pid VNone VNone false w = Ok problem
           ∧ problem !! "grader" = Some (VStr path)
           ∧ load_grader path = Some grade
           ∧ correct res = (grade uid key).1
           ∧ message res = (grade uid key).2
           ∧ problem !! "score" = Some (points res)
           ∧ grader_calls w' = grader_calls w ++ [GraderCall path uid key])
    ∧ (∀ problem path,
         get_problem pid VNone VNone false w = Ok problem →
         problem !! "grader" = Some (VStr path) →
         load_grader path = None →
         ∃ e, r = Raise e ∧ w' = w).
Proof.
  destruct (grade_problem load_grader pid key uid w) as [[res|e] w']
    eqn:Hg; [exists (Ok res), w' | exists (Raise e), w'];
    (split; [reflexivity|]).
  - destruct (grade_problem_Ok_inv _ _ _ _ _ _ _ Hg)
      as (problem & path & grade & score & Hp & Hgr & Hl & Hs & -> & ->).
    split; [done|]. split; [done|]. split.
    + intros res' [= <-]. exists problem, path, grade.
      by rewrite get_problem_tid_None.
    + intros problem' path' Hp' Hgr' Hl'. rewrite get_problem_tid_None in Hp'.
      congruence.
  - destruct (grade_problem_Raise _ _ _ _ _ _ Hg)
      as [[-> Hkind]|(path & -> & ->)].
    + split; [done|]. split; [done|]. split; [done|]. intros. by exists e.
    + split; [done|]. split; [done|]. split; [done|].
      intros problem path' Hp Hgr Hl. exfalso.
      rewrite get_problem_tid_None in Hp.
      unfold grade_problem, mbind, M_bind, read, lift, modify, raise,
        mret, M_ret in Hg. cbv beta in Hg.
      rewrite Hp in Hg. unfold doc_get in Hg. rewrite Hgr, Hl, Hp in Hg.
      destruct (problem !! "name"); by injection Hg.
Qed.

(** X9.  An accepted [submit_key] leaves the problems as they are, calls
    the grader of the problem once, and appends exactly one submission:
    it carries the uid of the resolved user, the tid, pid, key and ip of
    the call, the time of the call, the category of the problem at that
    time and the verdict of the grader.  The points returned are the
    stored score of the problem. *)
Theorem submit_key_accepted_record (tid pid key uid ip : value) (now : Z)
    (w w1 : world) (r : grade_result) :
  submit_key load_grader get_user tid pid key uid ip now w = (Ok r, w1) →
  ∃ user uid' problem path category,
    get_user uid = Some user
    ∧ user !! "uid" = Some uid'
    ∧ get_problem pid VNone VNone false w = Ok problem
    ∧ problem !! "category" = Some category
    ∧ problem !! "score" = Some (points r)
    ∧ problem !! "grader" = Some (VStr path)
    ∧ w1 = World (problems w)
             (submissions w ++
                [submission_record uid' tid now pid ip key category
                   (correct r)])
             (grader_calls w ++ [GraderCall path uid' key]).
Proof.
  intros H.
  destruct (submit_key_Ok _ _ _ _ _ _ _ _ _ _ _ H)
    as (t & p & k & unlocked & solved & user & uid' & path & problem
        & category & tried & (-> & -> & ->) & _ & _ & _ & (Huser & Huid)
        & Hgrade & (Hpr & Hcat) & _ & ->).
  destruct (grade_problem_Ok_inv _ _ _ _ _ _ _ Hgrade)
    as (pr & path' & grade & score & Hpr' & Hgr & Hload & Hscore & -> & Hw).
  rewrite Hpr in Hpr'. injection Hpr' as <-.
  assert (path' = path) as ->.
  { apply (f_equal grader_calls) in Hw. cbn [log_call grader_calls] in Hw.
    apply app_inv_head in Hw. by injection Hw. }
  exists user, uid', problem, path, category.
  rewrite get_problem_tid_None. by repeat (split; [done|]).
Qed.

Lemma lookup_error_not_early (e : exn) :
  lookup_error e →
  ¬ ((∃ msg, e = ValidationError msg) ∨ e = locked ∨ e = already_solved
     ∨ e = no_such_user).
Proof.
  intros H. destruct (lookup_error_not_rejection _ H) as (? & ? & _ & ? & K).
  intros [[msg ?]|[?|[?|?]]]; [by destruct (K msg) | done..].
Qed.

(** X10.  A [submit_key] that raises stores nothing: the problems and the
    submissions are as before.  When it raises a validation error, or
    rejects the attempt as locked, already solved or made by an unknown
    user, it has not called any grader either: the state is untouched. *)
Theorem submit_key_rejected_stores_nothing (tid pid key uid ip : value)
    (now : Z) (w w' : world) (e : exn) :
  submit_key load_grader get_user tid pid key uid ip now w = (Raise e, w') →
  problems w' = problems w
  ∧ submissions w' = submissions w
  ∧ ((∃ msg, e = ValidationError msg) ∨ e = locked ∨ e = already_solved
     ∨ e = no_such_user → w' = w).
Proof.
  unfold submit_key, mbind, M_bind, read, lift, raise, modify, mret, M_ret.
  cbv beta.
  destruct (validate submission_schema _) as [[]|e0] eqn:Hval;
    [|by intros [= <- <-]].
  destruct (get_unlocked_pids _ _ w) as [unlocked|e0] eqn:Hu;
    [|by intros [= <- <-]].
  destruct (negb _); [by intros [= <- <-]|].
  destruct (get_solved_pids _ _ w) as [solved|e0] eqn:Hs;
    [|by intros [= <- <-]].
  destruct (py_in _ solved); [by intros [= <- <-]|].
  destruct (get_user uid) as [user|]; [|by intros [= <- <-]].
  destruct (doc_get user "uid") as [uid'|e0] eqn:Huid;
    [|by intros [= <- <-]].
  destruct (grade_problem load_grader pid key uid' w) as [[r|e0] wg]
    eqn:Hgrade.
  2:{ intros [= <- <-].
      destruct (grade_problem_Raise _ _ _ _ _ _ Hgrade)
        as [[-> _]|(path & -> & ->)]; [done|].
      split; [done|]. split; [done|].
      by intros [[? ?]|[?|[?|?]]]. }
  destruct (grade_problem_Ok_inv _ _ _ _ _ _ _ Hgrade)
    as (pr & path & grade & score & _ & _ & _ & _ & _ & ->).
  destruct (get_problem_no_tid _ _ _ _) as [problem|e0] eqn:Hpr.
  2:{ intros [= <- <-]. split; [done|]. split; [done|].
      apply get_problem_no_tid_lookup_error in Hpr. intros Hk.
      by destruct (lookup_error_not_early _ Hpr Hk). }
  destruct (doc_get problem "category") as [category|e0] eqn:Hcat.
  2:{ intros [= <- <-]. split; [done|]. split; [done|].
      apply doc_get_lookup_error in Hcat. intros Hk.
      by destruct (lookup_error_not_early _ Hcat Hk). }
  destruct (mapM key_pid_of _) as [tried|e0] eqn:Htried.
  2:{ intros [= <- <-]. split; [done|]. split; [done|].
      apply mapM_Raise in Htried as (s & _ & Hs').
      apply key_pid_of_lookup_error in Hs'. intros Hk.
      by destruct (lookup_error_not_early _ Hs' Hk). }
  destruct (py_in_pairs _ tried); [|done].
  intros [= <- <-]. split; [done|]. split; [done|].
  by intros [[? ?]|[?|[?|?]]].
Qed.

(** X11.  An accepted submission extends the solved pids of its team by
    its pid when the grader accepted the key and leaves them as they were
    when it did not; the solved pids of every other team are the same
    before and after. *)
Theorem submit_key_extends_solved_pids (tid pid key uid ip : value) (now : Z)
    (w w1 : world) (r : grade_result) :
  submit_key load_grader get_user tid pid key uid ip now w = (Ok r, w1) →
  ∃ solved,
    get_solved_pids tid VNone w = Ok solved
    ∧ get_solved_pids tid VNone w1
      = Ok (solved ++ (if correct r then [pid] else []))
    ∧ ∀ other, other ≠ VNone → other ≠ tid →
        get_solved_pids other VNone w1 = get_solved_pids other VNone w.
Proof.
  intros H.
  destruct (submit_key_Ok _ _ _ _ _ _ _ _ _ _ _ H)
    as (t & p & k & unlocked & solved & user & uid' & path & problem
        & category & tried & (-> & -> & ->) & _ & _ & (Hs & _) & _
        & _ & _ & _ & ->).
  set (sub := submission_record uid' (VStr t) now (VStr p) ip (VStr k)
                category (correct r)).
  destruct (submission_record_fields uid' (VStr t) now (VStr p) ip (VStr k)
              category (correct r)) as (Hst & Hsp & Hsk & Hsc).
  fold sub in Hst, Hsp, Hsk, Hsc.
  exists solved. split; [done|]. split.
  - unfold get_solved_pids in *.
    rewrite (get_submissions_of_team_snoc (VStr t) _ (submissions w) sub);
      [|done..].
    rewrite <- get_submissions_of_team by done.
    apply result_fmap_Ok in Hs as (ls & Hls & ->).
    assert (mapM solved_pid_of [sub] =
            Ok [if correct r then [VStr p] else []]) as Hone.
    { cbn [mapM]. unfold solved_pid_of, doc_get. rewrite Hsc.
      cbn [mbind result_bind]. rewrite py_eq_bool_true.
      destruct (correct r); [by rewrite Hsp|done]. }
    rewrite (mapM_app_Ok _ _ _ _ _ Hls Hone). cbn [fmap result_fmap].
    rewrite concat_app. cbn [concat]. by rewrite app_nil_r.
  - intros other Hnone Hother. unfold get_solved_pids.
    rewrite !get_submissions_of_team by done.
    cbn [set_submissions submissions log_call]. rewrite find_app.
    unfold Mongo.find at 2. cbn [List.filter].
    assert (Mongo.matches (<["tid" := other]> ∅) sub = false) as ->.
    { apply not_true_is_false. intros Hm%matches_insert. congruence. }
    by rewrite app_nil_r.
Qed.

(** X12.  A team with a correct submission for a pid that no enabled
    problem has (the problem was disabled or removed) cannot compute its
    unlocked pids any more: [get_unlocked_pids] raises, and every attempt
    of the team, on whatever problem, raises the same error, which is not
    a rejection of the pipeline; nothing is graded or stored. *)
Theorem solved_hidden_problem_blocks_team (t p : string) (w : world)
    (s : doc) :
  s ∈ submissions w →
  s !! "tid" = Some (VStr t) →
  s !! "pid" = Some (VStr p) →
  s !! "correct" = Some (VBool true) →
  (∀ q, q ∈ problems w → q !! "pid" = Some (VStr p) →
        q !! "disabled" ≠ Some (VBool false)) →
  ∃ e, get_unlocked_pids (VStr t) VNone w = Raise e
       ∧ lookup_error e
       ∧ is_conflict e = false
       ∧ ∀ pid key uid ip now,
           (String.length t ≤ 100)%nat →
           (String.length pid ≤ 100)%nat →
           (String.length key ≤ 100)%nat →
           submit_key load_grader get_user (VStr t) (VStr pid) (VStr key)
             uid ip now w = (Raise e, w).
Proof.
  intros Hs Hst Hsp Hsc Hhidden.
  assert (∃ e, get_unlocked_pids (VStr t) VNone w = Raise e) as [e He].
  { unfold get_unlocked_pids, get_solved_problems.
    destruct (get_solved_pids (VStr t) VNone w) as [solved|e] eqn:Hsolved;
      [|by eexists].
    assert (VStr p ∈ solved) as Hin.
    { apply (elem_of_get_solved_pids (VStr t) w solved); [done..|].
      exists s. repeat (split; [done|]). by exists (VBool true). }
    cbn [mbind result_bind].
    destruct (mapM_Raise_elem (λ pid, get_problem_no_tid pid VNone false w)
                solved (VStr p) not_found Hin) as [e' ->]; [|by eexists].
    by apply get_problem_by_pid_hidden. }
  exists e. split; [done|].
  pose proof (get_unlocked_pids_lookup_error _ _ _ _ He) as Hle.
  split; [done|]. split.
  { destruct (lookup_error_not_rejection e Hle) as (? & ? & ? & ? & Hmsg).
    unfold is_conflict. apply bool_decide_eq_false_2.
    rewrite !elem_of_cons. unfold identical_pid, identical_name.
    intros [->|[->|[->|[->|[->|Hnil]]]]]; try done;
      [by destruct (Hmsg "Problem with identical pid already exists.")
      |by destruct (Hmsg "Problem with identical name already exists.")
      |by apply elem_of_nil in Hnil]. }
  intros pid key uid ip now Ht Hp Hk.
  unfold submit_key, mbind, M_bind, read, lift, raise, modify, mret, M_ret.
  cbv beta. by rewrite (validate_submission_shape t pid key Ht Hp Hk), He.
Qed.

End MorePipeline.

(** The statement above, for the right key on problem A. *)
Lemma submit_key_accepted_record_witness :
  ∃ user uid' problem path category,
    Fixture.get_user (VStr "u1") = Some user
    ∧ user !! "uid" = Some uid'
    ∧ get_problem (VStr "#A") VNone VNone false Fixture.fresh_store
      = Ok problem
    ∧ problem !! "category" = Some category
    ∧ problem !! "score"
      = Some (points (GradeResult true (VInt 10) "Correct!"))
    ∧ problem !! "grader" = Some (VStr path)
    ∧ Fixture.after_right =
        World (problems Fixture.fresh_store)
          (submissions Fixture.fresh_store ++
             [submission_record uid' (VStr "t1") 1 (VStr "#A") VNone
                (VStr "flag1") category
                (correct (GradeResult true (VInt 10) "Correct!"))])
          (grader_calls Fixture.fresh_store
             ++ [GraderCall path uid' (VStr "flag1")]).
Proof.
  apply (submit_key_accepted_record Fixture.load_grader Fixture.get_user
           (VStr "t1") (VStr "#A") (VStr "flag1") (VStr "u1") VNone 1
           Fixture.fresh_store Fixture.after_right
           (GradeResult true (VInt 10) "Correct!")).
  vm_compute. reflexivity.
Defined.

(** The statement above, for a key the team has already tried. *)
Lemma submit_key_rejected_stores_nothing_witness :
  problems (log_call (GraderCall "flag1.py" (VStr "u1") (VStr "wrong"))
              Fixture.tried_wrong)
    = problems Fixture.tried_wrong
  ∧ submissions (log_call (GraderCall "flag1.py" (VStr "u1") (VStr "wrong"))
                   Fixture.tried_wrong)
    = submissions Fixture.tried_wrong
  ∧ ((∃ msg, already_tried = ValidationError msg) ∨ already_tried = locked
     ∨ already_tried = already_solved ∨ already_tried = no_such_user →
     log_call (GraderCall "flag1.py" (VStr "u1") (VStr "wrong"))
       Fixture.tried_wrong = Fixture.tried_wrong).
Proof.
  apply (submit_key_rejected_stores_nothing
           Fixture.load_grader Fixture.get_user
           (VStr "t1") (VStr "#A") (VStr "wrong") (VStr "u1") VNone 1
           Fixture.tried_wrong).
  vm_compute. reflexivity.
Defined.

(** The statement above, for the right key on problem A. *)
Lemma submit_key_extends_solved_pids_witness :
  ∃ solved,
    get_solved_pids (VStr "t1") VNone Fixture.fresh_store = Ok solved
    ∧ get_solved_pids (VStr "t1") VNone Fixture.after_right
      = Ok (solved ++
              (if correct (GradeResult true (VInt 10) "Correct!")
               then [VStr "#A"] else []))
    ∧ ∀ other, other ≠ VNone → other ≠ VStr "t1" →
        get_solved_pids other VNone Fixture.after_right
        = get_solved_pids other VNone Fixture.fresh_store.
Proof.
  apply (submit_key_extends_solved_pids Fixture.load_grader Fixture.get_user
           (VStr "t1") (VStr "#A") (VStr "flag1") (VStr "u1") VNone 1
           Fixture.fresh_store Fixture.after_right
           (GradeResult true (VInt 10) "Correct!")).
  vm_compute. reflexivity.
Defined.

(** The statement above, for team [t1], which solved A before A was
    disabled. *)
Lemma solved_hidden_problem_blocks_team_witness :
  ∃ e, get_unlocked_pids (VStr "t1") VNone Fixture.solved_then_disabled
       = Raise e
       ∧ lookup_error e
       ∧ is_conflict e = false
       ∧ ∀ pid key uid ip now,
           (String.length "t1" ≤ 100)%nat →
           (String.length pid ≤ 100)%nat →
           (String.length key ≤ 100)%nat →
           submit_key Fixture.load_grader Fixture.get_user
             (VStr "t1") (VStr pid) (VStr key) uid ip now
             Fixture.solved_then_disabled
           = (Raise e, Fixture.solved_then_disabled).
Proof.
  apply (solved_hidden_problem_blocks_team
           Fixture.load_grader Fixture.get_user "t1" "#A"
           Fixture.solved_then_disabled
           (Fixture.submission "u1" "t1" "#A" "flag1" "web" true)).
  - left.
  - vm_compute. reflexivity.
  - vm_compute. reflexivity.
  - vm_compute. reflexivity.
  - intros q Hq Hpid.
    change (problems Fixture.solved_then_disabled)
      with [Fixture.stored "A" "web" 0 ∅ true; Fixture.problem_B] in Hq.
    rewrite !elem_of_cons in Hq.
    destruct Hq as [->|[->|Hq]]; [| |by apply elem_of_nil in Hq].
    + vm_compute. discriminate.
    + vm_compute in Hpid. discriminate Hpid.
Defined.

(** ** More on unlocking *)

(** X13.  An enabled problem stored without a weightmap or without a
    threshold is unlocked for every team, whatever the team has solved and
    whatever category is asked for, as soon as the unlocked pids of the
    team can be computed. *)
Theorem unlocked_without_weightmap_or_threshold (tid category : value)
    (w : world) (q : doc) (pid : value) (unlocked : list value) :
  q ∈ problems w →
  q !! "disabled" = Some (VBool false) →
  q !! "pid" = Some pid →
  q !! "weightmap" = None ∨ q !! "threshold" = None →
  get_unlocked_pids tid category w = Ok unlocked →
  pid ∈ unlocked.
Proof.
  intros Hin Hdis Hpid Hbare Hu.
  destruct (get_unlocked_pids_Ok _ _ _ _ Hu)
    as (pids & found & steps & _ & _ & Hsteps & ->).
  apply mapM_Ok in Hsteps.
  assert (q ∈ get_all_problems VNone false w) as Hall
    by by apply elem_of_get_all_problems.
  destruct (Forall2_elem_of_l _ _ _ _ Hsteps Hall) as (l & Hl & Hstep).
  apply elem_of_concat. exists l. split; [done|].
  unfold unlock_step, has_key, doc_get in Hstep. rewrite Hpid in Hstep.
  destruct Hbare as [Hb|Hb]; rewrite Hb in Hstep.
  - cbn in Hstep. injection Hstep as <-. by left.
  - destruct (q !! "weightmap"); cbn in Hstep; injection Hstep as <-;
      by left.
Qed.

(** The weight sum of a problem: the weight its weightmap gives to each
    solved pid, as often as the pid is in the solved list. *)
Lemma weightsum_of_solved (w : world) (problem : doc) (m : gmap string Z)
    (solved : list value) (found : list doc) (weights : list Z) :
  problem !! "weightmap" = Some (VDict m) →
  Forall2 (λ v p, get_problem_no_tid v VNone false w = Ok p) solved found →
  Forall2 (λ p x, weight_of problem p = Ok x) found weights →
  sum weights = sum (weight_in m <$> solved).
Proof.
  intros Hwm Hfound. revert weights.
  induction Hfound as [|v p solved found Hp _ IH]; intros weights Hws.
  - by inversion Hws.
  - inversion Hws as [|? x ? weights' Hx Hws']; subst.
    cbn [sum foldr fmap list_fmap]. fold (sum weights').
    fold (sum (weight_in m <$> solved)). rewrite (IH _ Hws'). f_equal.
    assert (p !! "pid" = Some v ∧ v ≠ VNone) as [Hpid Hv].
    { destruct (decide (v = VNone)) as [->|Hv]; [done|].
      by apply get_problem_no_tid_Ok in Hp as (_ & _ & Hpid & _); auto. }
    unfold weight_of, doc_get in Hx. rewrite Hwm, Hpid in Hx.
    cbn [mbind result_bind] in Hx.
    destruct v; cbn [weight_in]; congruence.
Qed.

(** X14.  An enabled stored problem, the only enabled one with its pid,
    with an integer threshold [T] and a weightmap [m], is unlocked for a
    team exactly when the threshold is at most the sum, over the solved
    pids of the team in the category asked for, of the weights [m] gives
    them (0 for a pid outside [m]).  A pid counts once for every correct
    submission of the team for it, and the category argument restricts
    the solved pids that are summed, not the problems that are returned. *)
Theorem unlocked_iff_weightsum (tid category : value) (w : world)
    (problem : doc) (pid : string) (T : Z) (m : gmap string Z)
    (solved unlocked : list value) :
  problem ∈ problems w →
  problem !! "disabled" = Some (VBool false) →
  problem !! "pid" = Some (VStr pid) →
  problem !! "threshold" = Some (VInt T) →
  problem !! "weightmap" = Some (VDict m) →
  (∀ q, q ∈ problems w → q !! "disabled" = Some (VBool false) →
        q !! "pid" = Some (VStr pid) → q = problem) →
  get_solved_pids tid category w = Ok solved →
  get_unlocked_pids tid category w = Ok unlocked →
  VStr pid ∈ unlocked ↔ T ≤ sum (weight_in m <$> solved).
Proof.
  intros Hin Hdis Hpid Hthr Hwm Huniq Hsolved Hu.
  destruct (get_unlocked_pids_Ok _ _ _ _ Hu)
    as (pids & found & steps & Hpids & Hfound & Hsteps & ->).
  rewrite Hsolved in Hpids. injection Hpids as <-.
  apply mapM_Ok in Hfound. apply mapM_Ok in Hsteps.
  assert (problem ∈ get_all_problems VNone false w) as Hall
    by by apply elem_of_get_all_problems.
  destruct (Forall2_elem_of_l _ _ _ _ Hsteps Hall) as (l & Hl & Hstep).
  assert (VStr pid ∈ concat steps ↔ VStr pid ∈ l) as ->.
  { rewrite elem_of_concat. split; [|by exists l].
    intros (l' & Hl' & Hv).
    destruct (Forall2_elem_of_r _ _ _ _ Hsteps Hl') as (q & Hq & Hqstep).
    apply elem_of_get_all_problems in Hq as [Hq Hqd].
    pose proof (unlock_step_elem_of _ _ _ _ Hqstep Hv) as Hqpid.
    rewrite (Huniq q Hq Hqd Hqpid) in Hqstep. congruence. }
  unfold unlock_step, has_key, doc_get in Hstep.
  rewrite Hwm, Hthr, Hpid in Hstep. cbn [negb orb] in Hstep.
  apply result_bind_Ok in Hstep as (weights & Hws & Hstep).
  apply mapM_Ok in Hws.
  rewrite (weightsum_of_solved w problem m solved found weights
             Hwm Hfound Hws) in Hstep.
  cbn [mbind result_bind py_ge] in Hstep.
  destruct (Z.leb_spec T (sum (weight_in m <$> solved))) as [Hle|Hlt];
    injection Hstep as <-.
  - rewrite list_elem_of_singleton. done.
  - split; [by intros ?%elem_of_nil | lia].
Qed.

(** The statement above, for problem E, stored without a threshold. *)
Lemma unlocked_without_weightmap_or_threshold_witness :
  VStr "#E" ∈ [VStr "#E"].
Proof.
  apply (unlocked_without_weightmap_or_threshold (VStr "t1") VNone
           Fixture.store_with_E Fixture.problem_E (VStr "#E") [VStr "#E"]).
  - left.
  - vm_compute. reflexivity.
  - vm_compute. reflexivity.
  - right. vm_compute. reflexivity.
  - vm_compute. reflexivity.
Defined.

(** The statement above, for problem B and a team that has solved A, asked
    with the category of B: the solved pids of that category are none. *)
Lemma unlocked_iff_weightsum_witness :
  VStr "#B" ∈ [VStr "#A"] ↔ 5 ≤ sum (weight_in {["#A" := 5]} <$> []).
Proof.
  apply (unlocked_iff_weightsum (VStr "t1") (VStr "crypto")
           Fixture.solved_A Fixture.problem_B "#B" 5 {["#A" := 5]}
           [] [VStr "#A"]).
  - right. left.
  - vm_compute. reflexivity.
  - vm_compute. reflexivity.
  - vm_compute. reflexivity.
  - vm_compute. reflexivity.
  - intros q Hq _ Hpid.
    change (problems Fixture.solved_A)
      with [Fixture.problem_A; Fixture.problem_B] in Hq.
    rewrite !elem_of_cons in Hq.
    destruct Hq as [->|[->|Hq]]; [|done|by apply elem_of_nil in Hq].
    vm_compute in Hpid. discriminate Hpid.
  - vm_compute. reflexivity.
  - vm_compute. reflexivity.
Defined.

(** ** Clearing, listing and invalidating submissions *)

Lemma matches_tid (tid : value) (s : doc) :
  Mongo.matches (<["tid" := tid]> ∅) s = bool_decide (s !! "tid" = Some tid).
Proof.
  apply eq_true_iff_eq. rewrite matches_spec, bool_decide_eq_true. split.
  - intros H. apply H. apply lookup_insert_eq.
  - intros H k v. rewrite lookup_insert. case_decide; [|by rewrite lookup_empty].
    intros [= <-]. by subst.
Qed.

Lemma find_filter_disjoint (P : doc → bool) (spec : doc) (c : list doc) :
  (∀ d, d ∈ c → Mongo.matches spec d = true → P d = true) →
  Mongo.find spec (List.filter P c) = Mongo.find spec c.
Proof.
  intros H. unfold Mongo.find. induction c as [|d c IH]; [done|].
  cbn [List.filter]. destruct (P d) eqn:HP.
  - cbn [List.filter]. rewrite IH; [done|]. intros d' Hd'. apply H. by right.
  - destruct (Mongo.matches spec d) eqn:Hm.
    + rewrite (H d) in HP; [done | by left | done].
    + apply IH. intros d' Hd'. apply H. by right.
Qed.

Lemma find_filter_none (P : doc → bool) (spec : doc) (c : list doc) :
  (∀ d, Mongo.matches spec d = true → P d = false) →
  Mongo.find spec (List.filter P c) = [].
Proof.
  intros H. unfold Mongo.find. induction c as [|d c IH]; [done|].
  cbn [List.filter]. destruct (P d) eqn:HP; [|done].
  cbn [List.filter]. destruct (Mongo.matches spec d) eqn:Hm; [|done].
  rewrite (H d Hm) in HP. done.
Qed.

(** X15.  [clear_submissions] by team deletes the submissions of the team
    and no other: afterwards the team has no submission and no solved pid,
    and every other team has the submissions it had; the problems are
    untouched.  Called with neither a uid nor a tid it raises and deletes
    nothing. *)
Theorem clear_submissions_of_team (tid : value) (w : world) :
  tid ≠ VNone →
  ∃ w',
    clear_submissions VNone tid w = (Ok (), w')
    ∧ problems w' = problems w
    ∧ submissions w' =
        List.filter (λ s, negb (bool_decide (s !! "tid" = Some tid)))
          (submissions w)
    ∧ get_submissions VNone VNone tid VNone w' = []
    ∧ get_solved_pids tid VNone w' = Ok []
    ∧ (∀ other, other ≠ VNone → other ≠ tid →
         get_submissions VNone VNone other VNone w'
         = get_submissions VNone VNone other VNone w)
    ∧ clear_submissions VNone VNone w =
        (Raise (InternalException "You must supply either a tid or uid"), w).
Proof.
  intros Ht.
  set (kept := List.filter
                 (λ s, negb (bool_decide (s !! "tid" = Some tid)))
                 (submissions w)).
  assert (Mongo.remove (<["tid" := tid]> ∅) (submissions w) = kept) as Hrem.
  { unfold Mongo.remove, kept. apply List.filter_ext. intros d.
    by rewrite matches_tid. }
  exists (World (problems w) kept (grader_calls w)).
  split.
  { unfold clear_submissions, mbind, M_bind, lift, modify. cbv beta.
    rewrite (decide_True (P := VNone = VNone)) by done.
    rewrite (decide_False (P := tid = VNone)) by done.
    unfold set_submissions. by rewrite Hrem. }
  cbn [problems submissions]. split; [done|]. split; [done|].
  assert (get_submissions VNone VNone tid VNone
            (World (problems w) kept (grader_calls w)) = []) as Hnone.
  { rewrite get_submissions_of_team by done. cbn [submissions].
    apply find_filter_none. intros d. rewrite matches_tid.
    by intros ->. }
  split; [done|]. split.
  { unfold get_solved_pids. by rewrite Hnone. }
  split.
  - intros other Ho Hne. rewrite !get_submissions_of_team by done.
    cbn [submissions]. apply find_filter_disjoint.
    intros d _. rewrite matches_tid, bool_decide_eq_true. intros Hd.
    apply negb_true_iff, bool_decide_eq_false_2. congruence.
  - unfold clear_submissions, mbind, M_bind, lift, modify. cbv beta.
    by rewrite !(decide_True (P := VNone = VNone)) by done.
Qed.

(** The statement above, for team [t1]. *)
Lemma clear_submissions_of_team_witness :
  ∃ w',
    clear_submissions VNone (VStr "t1") Fixture.two_of_t1 = (Ok (), w')
    ∧ problems w' = problems Fixture.two_of_t1
    ∧ submissions w' =
        List.filter (λ s, negb (bool_decide (s !! "tid" = Some (VStr "t1"))))
          (submissions Fixture.two_of_t1)
    ∧ get_submissions VNone VNone (VStr "t1") VNone w' = []
    ∧ get_solved_pids (VStr "t1") VNone w' = Ok []
    ∧ (∀ other, other ≠ VNone → other ≠ VStr "t1" →
         get_submissions VNone VNone other VNone w'
         = get_submissions VNone VNone other VNone Fixture.two_of_t1)
    ∧ clear_submissions VNone VNone Fixture.two_of_t1 =
        (Raise (InternalException "You must supply either a tid or uid"),
         Fixture.two_of_t1).
Proof.
  apply (clear_submissions_of_team (VStr "t1") Fixture.two_of_t1).
  discriminate.
Defined.

(** X16.  [get_correct_submissions] for a team returns exactly the stored
    submissions of the team whose [correct] field is [True], in stored
    order, and the pid of each is among the solved pids of the team.
    Unlike [get_submissions], it raises when given neither a uid nor a
    tid. *)
Theorem get_correct_submissions_of_team (tid : value) (w : world) :
  tid ≠ VNone →
  ∃ l,
    get_correct_submissions VNone VNone tid VNone w = Ok l
    ∧ l = List.filter (λ s, bool_decide (s !! "correct" = Some (VBool true)))
            (get_submissions VNone VNone tid VNone w)
    ∧ (∀ solved s p,
         get_solved_pids tid VNone w = Ok solved →
         s ∈ l → s !! "pid" = Some p → p ∈ solved)
    ∧ (∀ pid category,
         get_correct_submissions pid VNone VNone category w
         = Raise (InternalException "Must specify uid or tid")).
Proof.
  intros Ht.
  assert (Mongo.find (<["tid" := tid]> {["correct" := VBool true]})
            (submissions w) =
          List.filter (λ s, bool_decide (s !! "correct" = Some (VBool true)))
            (get_submissions VNone VNone tid VNone w)) as Hfind.
  { rewrite get_submissions_of_team by done. unfold Mongo.find.
    induction (submissions w) as [|d c IH]; [done|].
    cbn [List.filter]. rewrite matches_tid.
    assert (Mongo.matches (<["tid" := tid]> {["correct" := VBool true]}) d
            = bool_decide (d !! "tid" = Some tid)
              && bool_decide (d !! "correct" = Some (VBool true))) as ->.
    { apply eq_true_iff_eq.
      rewrite matches_spec, andb_true_iff, !bool_decide_eq_true. split.
      - intros H. split; apply H.
        + apply lookup_insert_eq.
        + rewrite lookup_insert_ne by done. apply lookup_singleton_eq.
      - intros [H1 H2] k v. rewrite lookup_insert.
        case_decide; [intros [= <-]; by subst|].
        rewrite lookup_singleton. case_decide; [|done].
        intros [= <-]. by subst. }
    destruct (bool_decide (d !! "tid" = Some tid)); cbn [andb List.filter];
      [|done].
    destruct (bool_decide (d !! "correct" = Some (VBool true)));
      by rewrite IH. }
  eexists. split; [|split; [reflexivity|split]].
  - unfold get_correct_submissions, add_filter. cbv zeta.
    rewrite !(decide_True (P := VNone = VNone)) by done.
    rewrite (decide_False (P := tid = VNone)) by done.
    cbn [mbind result_bind]. cbv zeta.
    rewrite !(decide_True (P := VNone = VNone)) by done. by rewrite Hfind.
  - intros solved s p Hsolved Hs Hp.
    apply list_elem_of_In, List.filter_In in Hs as [Hs Hc].
    apply list_elem_of_In in Hs.
    apply elem_of_get_submissions_of_team in Hs as [Hs Hst]; [|done].
    apply bool_decide_eq_true in Hc.
    apply (elem_of_get_solved_pids tid w solved p Ht Hsolved).
    exists s. repeat (split; [done|]). by exists (VBool true).
  - intros pid category. unfold get_correct_submissions. cbv zeta.
    by rewrite !(decide_True (P := VNone = VNone)) by done.
Qed.

(** The statement above, for team [t1]. *)
Lemma get_correct_submissions_of_team_witness :
  ∃ l,
    get_correct_submissions VNone VNone (VStr "t1") VNone Fixture.two_of_t1
      = Ok l
    ∧ l = List.filter (λ s, bool_decide (s !! "correct" = Some (VBool true)))
            (get_submissions VNone VNone (VStr "t1") VNone Fixture.two_of_t1)
    ∧ (∀ solved s p,
         get_solved_pids (VStr "t1") VNone Fixture.two_of_t1 = Ok solved →
         s ∈ l → s !! "pid" = Some p → p ∈ solved)
    ∧ (∀ pid category,
         get_correct_submissions pid VNone VNone category Fixture.two_of_t1
         = Raise (InternalException "Must specify uid or tid")).
Proof.
  apply (get_correct_submissions_of_team (VStr "t1") Fixture.two_of_t1).
  discriminate.
Defined.

Lemma replace_first_cases (spec d' : doc) (c : list doc) :
  ((∀ d, d ∈ c → Mongo.matches spec d = false)
   ∧ Mongo.replace_first spec d' c = c)
  ∨ (∃ i d, c !! i = Some d
            ∧ Mongo.matches spec d = true
            ∧ (∀ j d0, (j < i)%nat → c !! j = Some d0 →
                       Mongo.matches spec d0 = false)
            ∧ Mongo.replace_first spec d' c = <[i := d']> c).
Proof.
  induction c as [|d c IH]; cbn [Mongo.replace_first].
  - left. split; [|done]. by intros d ?%elem_of_nil.
  - destruct (Mongo.matches spec d) eqn:Hm.
    + right. exists 0%nat, d. split; [done|]. split; [done|].
      split; [|done]. intros j d0 Hj. lia.
    + destruct IH as [[Hnone ->]|(i & d1 & Hi & Hm1 & Hlt & ->)].
      * left. split; [|done]. intros d0 [->|Hd0]%elem_of_cons; auto.
      * right. exists (S i), d1. split; [done|]. split; [done|].
        split; [|done]. intros [|j] d0 Hj Hd0.
        -- cbn in Hd0. by injection Hd0 as <-.
        -- apply (Hlt j); [lia | done].
Qed.

Lemma filter_insert_frame (P : doc → bool) (c : list doc) (i : nat)
    (d d' : doc) :
  c !! i = Some d → P d = false → P d' = false →
  List.filter P (<[i := d']> c) = List.filter P c.
Proof.
  revert i. induction c as [|x c IH]; intros [|i] Hi Hd Hd'; try done.
  - cbn in Hi. injection Hi as ->. cbn. by rewrite Hd, Hd'.
  - cbn in Hi. cbn. specialize (IH i Hi Hd Hd').
    destruct (P x); [f_equal|]; exact IH.
Qed.

(** X17.  [invalidate_submissions] by team changes at most one stored
    submission: when the team has submissions, the first of them in stored
    order is replaced by the bare document [{"correct": False}] and the
    others are kept as they are; when it has none, nothing changes.  The
    submissions listed for any other team are the same before and after,
    and the problems are untouched. *)
Theorem invalidate_submissions_by_team_replaces_first (tid : value)
    (w : world) :
  tid ≠ VNone →
  ∃ w',
    invalidate_submissions VNone VNone tid w = (Ok (), w')
    ∧ problems w' = problems w
    ∧ ((get_submissions VNone VNone tid VNone w = [] ∧ w' = w)
       ∨ (∃ i d,
            submissions w !! i = Some d
            ∧ d !! "tid" = Some tid
            ∧ (∀ j d0, (j < i)%nat → submissions w !! j = Some d0 →
                       d0 !! "tid" ≠ Some tid)
            ∧ submissions w' =
                <[i := {["correct" := VBool false]}]> (submissions w)))
    ∧ (∀ other, other ≠ VNone → other ≠ tid →
         get_submissions VNone VNone other VNone w'
         = get_submissions VNone VNone other VNone w).
Proof.
  intros Ht.
  exists (set_submissions
            (Mongo.replace_first (<["tid" := tid]> ∅)
               {["correct" := VBool false]} (submissions w)) w).
  split.
  { unfold invalidate_submissions, add_filter, mbind, M_bind, read, modify,
      Mongo.update. cbv beta zeta.
    rewrite !(decide_True (P := VNone = VNone)) by done.
    by rewrite (decide_False (P := tid = VNone)) by done. }
  split; [done|].
  destruct (replace_first_cases (<["tid" := tid]> ∅)
              {["correct" := VBool false]} (submissions w))
    as [[Hnone Heq]|(i & d & Hi & Hm & Hlt & Heq)]; rewrite Heq.
  - split.
    + left. split.
      * rewrite get_submissions_of_team by done.
        destruct (Mongo.find _ (submissions w)) as [|d l] eqn:Hf; [done|].
        assert (d ∈ Mongo.find (<["tid" := tid]> ∅) (submissions w)) as Hd
          by (rewrite Hf; left).
        apply elem_of_find in Hd as [Hd Hm]. by rewrite (Hnone d Hd) in Hm.
      * by destruct w.
    + intros other _ _. by destruct w.
  - rewrite matches_tid, bool_decide_eq_true in Hm. split.
    + right. exists i, d. repeat (split; [done|]). split; [|done].
      intros j d0 Hj Hd0. specialize (Hlt j d0 Hj Hd0).
      rewrite matches_tid in Hlt. by apply bool_decide_eq_false in Hlt.
    + intros other Ho Hne. rewrite !get_submissions_of_team by done.
      cbn [set_submissions submissions]. unfold Mongo.find.
      apply (filter_insert_frame _ _ _ d); [done|..].
      * rewrite matches_tid. apply bool_decide_eq_false_2. congruence.
      * rewrite matches_tid. apply bool_decide_eq_false_2.
        by rewrite lookup_singleton_ne.
Qed.

(** The statement above, for team [t1]. *)
Lemma invalidate_submissions_by_team_replaces_first_witness :
  ∃ w',
    invalidate_submissions VNone VNone (VStr "t1") Fixture.two_of_t1
      = (Ok (), w')
    ∧ problems w' = problems Fixture.two_of_t1
    ∧ ((get_submissions VNone VNone (VStr "t1") VNone Fixture.two_of_t1 = []
        ∧ w' = Fixture.two_of_t1)
       ∨ (∃ i d,
            submissions Fixture.two_of_t1 !! i = Some d
            ∧ d !! "tid" = Some (VStr "t1")
            ∧ (∀ j d0, (j < i)%nat →
                       submissions Fixture.two_of_t1 !! j = Some d0 →
                       d0 !! "tid" ≠ Some (VStr "t1"))
            ∧ submissions w' =
                <[i := {["correct" := VBool false]}]>
                  (submissions Fixture.two_of_t1)))
    ∧ (∀ other, other ≠ VNone → other ≠ VStr "t1" →
         get_submissions VNone VNone other VNone w'
         = get_submissions VNone VNone other VNone Fixture.two_of_t1).
Proof.
  apply (invalidate_submissions_by_team_replaces_first (VStr "t1")
           Fixture.two_of_t1).
  discriminate.
Defined.

Section Regrading.

Variable load_grader : string → option (value → value → bool * string).

Lemma regrade_keys_state (pid : value) (subs : list doc)
    (keys : list (value * option bool)) (w w' : world)
    (r : result (list (value * option bool))) :
  regrade_keys load_grader pid subs keys w = (r, w') →
  problems w' = problems w ∧ submissions w' = submissions w
  ∧ ∃ calls, grader_calls w' = grader_calls w ++ calls.
Proof.
  revert keys w. induction subs as [|s subs IH]; intros keys w;
    cbn [regrade_keys].
  - intros [= <- <-]. repeat split; [done..|]. exists []. by rewrite app_nil_r.
  - unfold mbind, M_bind at 1. unfold lift at 1.
    destruct (doc_get s "key") as [key|e].
    2:{ intros [= <- <-]. repeat split; [done..|]. exists [].
        by rewrite app_nil_r. }
    destruct (negb (py_hashable key)).
    { intros [= <- <-]. repeat split; [done..|]. exists [].
      by rewrite app_nil_r. }
    destruct (in_keys key keys); [apply IH|].
    unfold mbind, M_bind at 1.
    destruct (grade_problem load_grader pid key VNone w) as [[res|e] wg]
      eqn:Hg.
    + destruct (grade_problem_Ok_inv _ _ _ _ _ _ _ Hg)
        as (_ & path & _ & _ & _ & _ & _ & _ & _ & ->).
      unfold mbind, M_bind at 1. unfold lift at 1.
      destruct (doc_get s "correct") as [stored|e].
      2:{ intros [= <- <-]. repeat split; [done..|]. by eexists. }
      intros H. destruct (IH _ _ H) as (Hp & Hs & calls & Hc).
      repeat split; [done..|]. cbn [log_call grader_calls] in Hc.
      rewrite <- app_assoc in Hc. by eexists.
    + intros [= <- <-].
      destruct (grade_problem_Raise _ _ _ _ _ _ _ Hg)
        as [[-> _]|(path & -> & _)]; repeat split; try done.
      * exists []. by rewrite app_nil_r.
      * by eexists.
Qed.

Lemma apply_changes_state (keys : list (value * option bool))
    (w w' : world) (r : result unit) :
  apply_changes keys w = (r, w') → w' = w.
Proof.
  induction keys as [|[key [b|]] keys IH]; cbn [apply_changes].
  - by intros [= <- <-].
  - unfold mbind, M_bind at 1. unfold read, Mongo.update.
    by intros [= <- <-].
  - done.
Qed.

(** X18.  [reevaluate_submissions_for_problem] never changes a stored
    submission or problem, whatever it returns: all it does to the state
    is call graders.  Its only write is a bulk update with a replacement
    document, which the store refuses. *)
Theorem reevaluate_submissions_never_writes (pid : value) (w : world) :
  ∃ r w',
    reevaluate_submissions_for_problem load_grader pid w = (r, w')
    ∧ problems w' = problems w
    ∧ submissions w' = submissions w
    ∧ ∃ calls, grader_calls w' = grader_calls w ++ calls.
Proof.
  destruct (reevaluate_submissions_for_problem load_grader pid w)
    as [r w'] eqn:H.
  exists r, w'. split; [done|].
  unfold reevaluate_submissions_for_problem, mbind, M_bind, read in H.
  cbv beta in H.
  destruct (get_problem_no_tid pid VNone false w).
  2:{ injection H as <- <-. repeat split; [done..|]. exists [].
      by rewrite app_nil_r. }
  destruct (regrade_keys load_grader pid _ [] w) as [[keys|e] w1] eqn:Hk.
  - apply regrade_keys_state in Hk. apply apply_changes_state in H as ->.
    done.
  - apply regrade_keys_state in Hk. by injection H as <- <-.
Qed.

End Regrading.

Lemma mapM_pure {A B} (f : A → B) (g : A → result B) (l : list A) :
  (∀ x, x ∈ l → g x = Ok (f x)) → mapM g l = Ok (f <$> l).
Proof.
  intros H. apply mapM_Ok.
  induction l as [|x l IH]; cbn; constructor.
  - apply H. left.
  - apply IH. intros y Hy. apply H. by right.
Qed.

Lemma concat_nil_Forall {A} (ls : list (list A)) :
  concat ls = [] ↔ Forall (λ l, l = []) ls.
Proof.
  induction ls as [|l ls IH]; cbn.
  - split; [constructor | done].
  - rewrite Forall_cons, <- IH. split.
    + by intros [-> ->]%app_eq_nil.
    + by intros [-> ->].
Qed.

Lemma py_eq_doc_refl (p : doc) : py_eq_doc p p = true.
Proof.
  unfold py_eq_doc. apply andb_true_intro. split.
  - by apply bool_decide_eq_true_2.
  - apply bool_decide_eq_true_2. intros k v Hk. rewrite Hk. cbn.
    apply py_eq_refl.
Qed.

Section Analysis.

Variable isfile : string → bool.

(** X19.  Over a store whose enabled problems each have a name, a string
    as grader and a dict as weightmap, [analyze_problems] returns a list of
    errors, and the list is empty exactly when every enabled problem's
    grader file exists and every key of its weightmap is the pid of an
    enabled problem. *)
Theorem analyze_problems_clean_iff (w : world) :
  Forall (λ p : doc,
            is_Some (p !! "name")
            ∧ (∃ path, p !! "grader" = Some (VStr path))
            ∧ (∃ m, p !! "weightmap" = Some (VDict m)))
         (get_all_problems VNone false w) →
  ∃ errors,
    analyze_problems isfile w = Ok errors
    ∧ (errors = [] ↔
       ∀ p, p ∈ get_all_problems VNone false w →
         (∀ path, p !! "grader" = Some (VStr path) → isfile path = true)
         ∧ (∀ m pid, p !! "weightmap" = Some (VDict m) → is_Some (m !! pid) →
              ∃ q, get_problem_no_tid (VStr pid) VNone false w = Ok q)).
Proof.
  intros Hshape. rewrite Forall_forall in Hshape.
  set (keyerr := λ (p : doc) (pid : string),
         match safe_fail (get_problem_no_tid (VStr pid) VNone false w) with
         | None => [unknown_weightmap_pid (default VNone (p !! "name")) pid]
         | Some _ => []
         end).
  set (errs := λ p : doc,
         match p !! "grader", p !! "weightmap" with
         | Some (VStr path), Some (VDict m) =>
             (if isfile path then []
              else [grader_missing_error (default VNone (p !! "name"))
                      (VStr path)])
             ++ concat (keyerr p <$> (map_to_list m).*1)
         | _, _ => []
         end).
  assert (mapM (analyze_problem isfile w) (get_all_problems VNone false w)
          = Ok (errs <$> get_all_problems VNone false w)) as Hall.
  { apply mapM_pure. intros p Hp.
    destruct (Hshape p Hp) as ([name Hn] & [path Hg] & [m Hm]).
    unfold analyze_problem, errs, doc_get. rewrite Hg, Hm, Hn.
    cbn [mbind result_bind default].
    rewrite (mapM_pure (keyerr p)).
    - by destruct (isfile path).
    - intros pid _. unfold analyze_weightmap_key, keyerr, doc_get.
      rewrite Hn. by destruct (safe_fail _). }
  exists (concat (errs <$> get_all_problems VNone false w)). split.
  { unfold analyze_problems. by rewrite Hall. }
  rewrite concat_nil_Forall, Forall_fmap, Forall_forall.
  split.
  - intros Hnil p Hp. specialize (Hnil p Hp). cbn in Hnil.
    destruct (Hshape p Hp) as (_ & [path Hg] & [m Hm]).
    unfold errs in Hnil. rewrite Hg, Hm in Hnil.
    apply app_eq_nil in Hnil as [Hfile Hkeys]. split.
    + intros path' Hg'. rewrite Hg in Hg'. injection Hg' as <-.
      by destruct (isfile path).
    + intros m' pid Hm' [z Hpid]. rewrite Hm in Hm'. injection Hm' as <-.
      rewrite concat_nil_Forall, Forall_fmap, Forall_forall in Hkeys.
      assert (pid ∈ (map_to_list m).*1) as Hin.
      { apply list_elem_of_fmap. exists (pid, z). split; [done|].
        by apply elem_of_map_to_list. }
      specialize (Hkeys pid Hin). cbn in Hkeys. unfold keyerr in Hkeys.
      destruct (get_problem_no_tid (VStr pid) VNone false w) as [q|e];
        [by exists q | done].
  - intros Hok p Hp. cbn. destruct (Hok p Hp) as [Hfile Hkeys].
    destruct (Hshape p Hp) as (_ & [path Hg] & [m Hm]).
    unfold errs. rewrite Hg, Hm. rewrite (Hfile path Hg). cbn [app].
    rewrite concat_nil_Forall, Forall_fmap, Forall_forall.
    intros pid Hin. cbn.
    apply list_elem_of_fmap in Hin as ([pid' z] & -> & Hin).
    apply elem_of_map_to_list in Hin. cbn.
    destruct (Hkeys m pid' Hm) as [q Hq]; [by exists z|].
    unfold keyerr. by rewrite Hq.
Qed.

End Analysis.

(** The statement above, for the store of problems A and B. *)
Lemma analyze_problems_clean_iff_witness :
  ∃ errors,
    analyze_problems Fixture.isfile Fixture.fresh_store = Ok errors
    ∧ (errors = [] ↔
       ∀ p, p ∈ get_all_problems VNone false Fixture.fresh_store →
         (∀ path, p !! "grader" = Some (VStr path) →
                  Fixture.isfile path = true)
         ∧ (∀ m pid, p !! "weightmap" = Some (VDict m) → is_Some (m !! pid) →
              ∃ q, get_problem_no_tid (VStr pid) VNone false
                     Fixture.fresh_store = Ok q)).
Proof.
  apply (analyze_problems_clean_iff Fixture.isfile Fixture.fresh_store).
  vm_compute get_all_problems.
  repeat constructor; try (by eexists); eexists; vm_compute; reflexivity.
Defined.

(** X20.  When [get_unlocked_problems] returns, it returns one document for
    each unlocked pid, in the order of [get_unlocked_pids]: the enabled
    problem stored under that pid with a [solved] flag added.  The flag is
    set for every pid the team has solved, and it is set only when the
    problem equals one of the team's solved problems. *)
Theorem get_unlocked_problems_flags (tid category : value) (w : world)
    (l : list doc) :
  get_unlocked_problems tid category w = Ok l →
  ∃ pids solved,
    get_unlocked_pids tid category w = Ok pids
    ∧ get_solved_pids tid VNone w = Ok solved
    ∧ Forall2 (λ pid r,
         ∃ p b,
           get_problem_no_tid pid VNone false w = Ok p
           ∧ r = <["solved" := VBool b]> p
           ∧ (pid ∈ solved → b = true)
           ∧ (b = true →
              ∃ spid s, spid ∈ solved
                ∧ get_problem_no_tid spid VNone false w = Ok s
                ∧ py_eq_doc p s = true))
       pids l.
Proof.
  unfold get_unlocked_problems, get_solved_problems. intros H.
  apply result_bind_Ok in H as (sp & Hsp & H).
  apply result_bind_Ok in Hsp as (solved & Hsolved & Hsp).
  apply result_bind_Ok in H as (pids & Hpids & H).
  apply result_bind_Ok in H as (unlocked & Hun & H).
  injection H as <-.
  exists pids, solved. split; [done|]. split; [done|].
  apply mapM_Ok in Hun. apply mapM_Ok in Hsp.
  apply Forall2_fmap_r.
  eapply Forall2_impl; [exact Hun|].
  intros pid p Hp. cbn beta in Hp.
  exists p, (existsb (py_eq_doc p) sp). split; [done|]. split; [done|].
  split.
  - intros Hin. apply existsb_exists.
    destruct (Forall2_elem_of_l _ _ _ _ Hsp Hin) as (s & Hs & Hps).
    cbn beta in Hps. rewrite Hp in Hps. injection Hps as <-.
    exists p. split; [by apply list_elem_of_In | apply py_eq_doc_refl].
  - intros (s & Hs & Heq)%existsb_exists. apply list_elem_of_In in Hs.
    destruct (Forall2_elem_of_r _ _ _ _ Hsp Hs) as (spid & Hspid & Hps).
    by exists spid, s.
Qed.

(** The statement above, for team [t1] after it has solved A. *)
Lemma get_unlocked_problems_flags_witness :
  ∃ pids solved,
    get_unlocked_pids (VStr "t1") VNone Fixture.solved_A = Ok pids
    ∧ get_solved_pids (VStr "t1") VNone Fixture.solved_A = Ok solved
    ∧ Forall2 (λ pid r,
         ∃ p b,
           get_problem_no_tid pid VNone false Fixture.solved_A = Ok p
           ∧ r = <["solved" := VBool b]> p
           ∧ (pid ∈ solved → b = true)
           ∧ (b = true →
              ∃ spid s, spid ∈ solved
                ∧ get_problem_no_tid spid VNone false Fixture.solved_A = Ok s
                ∧ py_eq_doc p s = true))
       pids
       [ <["solved" := VBool true]> Fixture.problem_A;
         <["solved" := VBool false]> Fixture.problem_B ].
Proof.
  apply (get_unlocked_problems_flags (VStr "t1") VNone Fixture.solved_A).
  vm_compute. reflexivity.
Defined.
